(** * Headless battle runner: a shallow embedding of
    [tools/headless-battle-runner.ts] and the properties of its two pipelines.

    Strings are Rocq [string]s read as sequences of code units (the model
    covers the code units 0..255).  The battle stream, the wall clock, the
    file system and the team and PRNG collaborators are outside the file and
    appear as explicit inputs. *)

From Equations Require Import Equations.
From Stdlib Require Import String Ascii List Arith ZArith Lia Bool.
From Stdlib Require Import SpecFloat.
Import ListNotations.
Open Scope string_scope.

(** ** JavaScript string primitives *)

Module JS.

Definition LF : ascii := ascii_of_nat 10.
Definition DQUOTE : ascii := ascii_of_nat 34.
Definition BACKSLASH : ascii := ascii_of_nat 92.

Definition str (c : ascii) : string := String c EmptyString.

(** [s.startsWith(p)] *)
Definition startsWith (s p : string) : bool := String.prefix p s.

(** [s.indexOf(c)] for a one-character needle; [None] stands for [-1]. *)
Fixpoint indexOf (s : string) (c : ascii) : option nat :=
  match s with
  | EmptyString => None
  | String a s' =>
      if Ascii.eqb a c then Some 0
      else match indexOf s' c with
           | Some i => Some (S i)
           | None => None
           end
  end.

(** [s.slice(a, b)] and [s.slice(a)] for indices within the string. *)
Definition slice (s : string) (a b : nat) : string := substring a (b - a) s.
Definition sliceFrom (s : string) (a : nat) : string :=
  substring a (String.length s - a) s.

(** [s.split(c)] for a one-character separator: always at least one piece. *)
Fixpoint split (s : string) (c : ascii) : list string :=
  match s with
  | EmptyString => [EmptyString]
  | String a s' =>
      if Ascii.eqb a c then EmptyString :: split s' c
      else match split s' c with
           | piece :: rest => String a piece :: rest
           | [] => [str a]
           end
  end.

(** Truthiness of a string: only the empty string is falsy. *)
Definition nonEmpty (s : string) : bool :=
  match s with EmptyString => false | String _ _ => true end.

Definition hexDigit (n : nat) : ascii :=
  if (n <? 10)%nat then ascii_of_nat (48 + n) else ascii_of_nat (87 + n).

(** [QuoteJSONString]: the escapes [JSON.stringify] applies to a string. *)
Definition quoteChar (c : ascii) : string :=
  let n := nat_of_ascii c in
  if (n =? 34)%nat then String BACKSLASH (str DQUOTE)
  else if (n =? 92)%nat then String BACKSLASH (str BACKSLASH)
  else if (n =? 8)%nat then String BACKSLASH "b"
  else if (n =? 12)%nat then String BACKSLASH "f"
  else if (n =? 10)%nat then String BACKSLASH "n"
  else if (n =? 13)%nat then String BACKSLASH "r"
  else if (n =? 9)%nat then String BACKSLASH "t"
  else if (n <? 32)%nat then
    String BACKSLASH ("u00" ++ String (hexDigit (n / 16)) (str (hexDigit (n mod 16))))
  else str c.

Fixpoint quoteBody (s : string) : string :=
  match s with
  | EmptyString => EmptyString
  | String c s' => quoteChar c ++ quoteBody s'
  end.

Definition quoteJSONString (s : string) : string :=
  String DQUOTE (quoteBody s ++ str DQUOTE).

(** Code units removed by [trim] and skipped by [Number]: WhiteSpace and
    LineTerminator below 256. *)
Definition isWhiteSpace (c : ascii) : bool :=
  let n := nat_of_ascii c in
  ((n =? 9) || (n =? 10) || (n =? 11) || (n =? 12) || (n =? 13)
   || (n =? 32) || (n =? 160))%nat.

Fixpoint trimStart (s : string) : string :=
  match s with
  | EmptyString => EmptyString
  | String c s' => if isWhiteSpace c then trimStart s' else s
  end.

Fixpoint trimEnd (s : string) : string :=
  match s with
  | EmptyString => EmptyString
  | String c s' =>
      match trimEnd s' with
      | EmptyString => if isWhiteSpace c then EmptyString else str c
      | rest => String c rest
      end
  end.

(** [s.trim()] *)
Definition trim (s : string) : string := trimEnd (trimStart s).

(** [s.toLowerCase()] on the code units below 256. *)
Definition lowerChar (c : ascii) : ascii :=
  let n := nat_of_ascii c in
  if ((65 <=? n) && (n <=? 90))%nat then ascii_of_nat (n + 32)
  else if ((192 <=? n) && (n <=? 222) && negb (n =? 215))%nat then ascii_of_nat (n + 32)
  else c.

Fixpoint toLowerCase (s : string) : string :=
  match s with
  | EmptyString => EmptyString
  | String c s' => String (lowerChar c) (toLowerCase s')
  end.

(** *** Numbers: IEEE 754 binary64 *)

Definition number := spec_float.
Definition prec : Z := 53.
Definition emax : Z := 1024.

Definition ofZ (z : Z) : number := binary_normalize prec emax z 0 false.

(** The double nearest to [(-1)^neg * m * 10^e]. *)
Definition roundDecimal (neg : bool) (m : N) (e : Z) : number :=
  match m with
  | N0 => S754_zero neg
  | Npos p =>
      if (0 <=? e)%Z
      then
        let v := (Zpos p * 10 ^ e)%Z in
        binary_normalize prec emax (if neg then (- v)%Z else v) 0 neg
      else
        let '(q, e', l) :=
          SFdiv_core_binary prec emax (Zpos p) 0 (10 ^ (- e))%Z 0 in
        binary_round_aux prec emax neg q e' l
  end.

Definition digitValue (base : N) (c : ascii) : option N :=
  let n := N_of_ascii c in
  let v :=
    if ((48 <=? n) && (n <=? 57))%N then Some (n - 48)%N
    else if ((97 <=? n) && (n <=? 102))%N then Some (n - 87)%N
    else if ((65 <=? n) && (n <=? 70))%N then Some (n - 55)%N
    else None in
  match v with
  | Some d => if (d <? base)%N then Some d else None
  | None => None
  end.

(** Longest run of digits at the head of [s]: its value (after the
    accumulator), the number of digits, and what follows. *)
Fixpoint readDigits (base : N) (acc : N) (s : string) : N * nat * string :=
  match s with
  | EmptyString => (acc, 0%nat, s)
  | String c s' =>
      match digitValue base c with
      | Some d =>
          let '(v, n, rest) := readDigits base (acc * base + d)%N s' in
          (v, S n, rest)
      | None => (acc, 0%nat, s)
      end
  end.

(** [ExponentPart] or nothing, up to the end of the string. *)
Definition readExponent (s : string) : option Z :=
  match s with
  | EmptyString => Some 0%Z
  | String c s' =>
      if Ascii.eqb c "e" || Ascii.eqb c "E" then
        let '(neg, s'') :=
          match s' with
          | String "+" t => (false, t)
          | String "-" t => (true, t)
          | _ => (false, s')
          end in
        match readDigits 10 0 s'' with
        | (v, S _, EmptyString) => Some (if neg then (- Z.of_N v)%Z else Z.of_N v)
        | _ => None
        end
      else None
  end.

(** [StrUnsignedDecimalLiteral] other than [Infinity]. *)
Definition readUnsignedDecimal (neg : bool) (s : string) : option number :=
  let '(i, ni, rest) := readDigits 10 0 s in
  match rest with
  | String "." rest' =>
      let '(m, nf, rest'') := readDigits 10 i rest' in
      if ((ni + nf =? 0)%nat) then None
      else match readExponent rest'' with
           | Some e => Some (roundDecimal neg m (e - Z.of_nat nf))
           | None => None
           end
  | _ =>
      if (ni =? 0)%nat then None
      else match readExponent rest with
           | Some e => Some (roundDecimal neg i e)
           | None => None
           end
  end.

Definition readNonDecimal (base : N) (s : string) : option number :=
  match readDigits base 0 s with
  | (v, S _, EmptyString) => Some (ofZ (Z.of_N v))
  | _ => None
  end.

Definition readSignedDecimal (neg : bool) (s : string) : option number :=
  if String.eqb s "Infinity" then Some (S754_infinity neg)
  else readUnsignedDecimal neg s.

(** [StringToNumber] on a trimmed, non-empty string. *)
Definition readNumericLiteral (s : string) : option number :=
  match s with
  | String "0" (String "x" t) | String "0" (String "X" t) => readNonDecimal 16 t
  | String "0" (String "o" t) | String "0" (String "O" t) => readNonDecimal 8 t
  | String "0" (String "b" t) | String "0" (String "B" t) => readNonDecimal 2 t
  | String "+" t => readSignedDecimal false t
  | String "-" t => readSignedDecimal true t
  | _ => readSignedDecimal false s
  end.

(** [Number(s)] for a string argument. *)
Definition Number (s : string) : number :=
  match trim s with
  | EmptyString => S754_zero false
  | t => match readNumericLiteral t with
         | Some v => v
         | None => S754_nan
         end
  end.

(** [Number.isFinite(v)] *)
Definition isFinite (v : number) : bool :=
  match v with
  | S754_zero _ | S754_finite _ _ _ => true
  | S754_infinity _ | S754_nan => false
  end.

Definition mul (x y : number) : number := SFmul prec emax x y.

(** *** Dates: a time value is a whole number of milliseconds, [None] for
    an invalid date. *)

(** Truncation toward zero of a finite double. *)
Definition truncate (v : number) : option Z :=
  match v with
  | S754_zero _ => Some 0%Z
  | S754_finite s m e =>
      let a := match e with
               | Zneg k => Z.shiftr (Zpos m) (Zpos k)
               | _ => Z.shiftl (Zpos m) e
               end in
      Some (if s then (- a)%Z else a)
  | _ => None
  end.

(** [new Date(v)] for a number: [TimeClip]. *)
Definition dateOfNumber (v : number) : option Z :=
  match truncate v with
  | Some t => if (Z.abs t <=? 8640000000000000)%Z then Some t else None
  | None => None
  end.

Definition digitChar (z : Z) : ascii := ascii_of_N (48 + Z.to_N (z mod 10)).

(** The last [width] decimal digits of a non-negative integer. *)
Fixpoint padded (width : nat) (z : Z) : string :=
  match width with
  | O => EmptyString
  | S w => padded w (z / 10) ++ str (digitChar z)
  end.

(** Year, month and day of a day number counted from 1970-01-01. *)
Definition civilFromDays (days : Z) : Z * Z * Z :=
  let z := (days + 719468)%Z in
  let era := (z / 146097)%Z in
  let doe := (z mod 146097)%Z in
  let yoe := ((doe - doe / 1460 + doe / 36524 - doe / 146096) / 365)%Z in
  let doy := (doe - (365 * yoe + yoe / 4 - yoe / 100))%Z in
  let mp := ((5 * doy + 2) / 153)%Z in
  let d := (doy - (153 * mp + 2) / 5 + 1)%Z in
  let m := (if mp <? 10 then mp + 3 else mp - 9)%Z in
  let y := (yoe + era * 400 + (if m <=? 2 then 1 else 0))%Z in
  (y, m, d).

Definition yearString (y : Z) : string :=
  if ((0 <=? y) && (y <=? 9999))%Z then padded 4 y
  else if (y <? 0)%Z then "-" ++ padded 6 (- y)
  else "+" ++ padded 6 y.

Definition isoOfTime (t : Z) : string :=
  let '(y, m, d) := civilFromDays (t / 86400000) in
  let ms := (t mod 86400000)%Z in
  yearString y ++ "-" ++ padded 2 m ++ "-" ++ padded 2 d ++ "T"
    ++ padded 2 (ms / 3600000) ++ ":" ++ padded 2 (ms / 60000 mod 60) ++ ":"
    ++ padded 2 (ms / 1000 mod 60) ++ "." ++ padded 3 (ms mod 1000) ++ "Z".

(** [date.toISOString()]: [None] is the [RangeError] of an invalid date. *)
Definition toISOString (date : option Z) : option string :=
  match date with
  | Some t => Some (isoOfTime t)
  | None => None
  end.

End JS.

(** ** The write side: [pipeInputWithTeams] *)

Inductive PlayerSlot := p1 | p2.

Definition PLAYER_SLOTS : list PlayerSlot := [p1; p2].

Definition slotName (slot : PlayerSlot) : string :=
  match slot with p1 => "p1" | p2 => "p2" end.

(** [Partial<Record<PlayerSlot, string>>] *)
Record Teams := mkTeams { team_p1 : option string; team_p2 : option string }.

Definition team (teams : Teams) (slot : PlayerSlot) : option string :=
  match slot with p1 => team_p1 teams | p2 => team_p2 teams end.

(** [!!teams[slot]]: present and not the empty string. *)
Definition hasTeam (teams : Teams) (slot : PlayerSlot) : bool :=
  match team teams slot with
  | Some t => JS.nonEmpty t
  | None => false
  end.

(** Calls made on the battle stream, in order. *)
Inductive StreamCall :=
| Write (chunk : string)
| WriteEnd.

(** The closure state of [pipeInputWithTeams].  [handled] is a trace of the
    [handleLine] invocations, kept to speak about the line splitter; the code
    never reads it. *)
Record PipeState := mkPipe {
  teamHandled_p1 : bool;
  teamHandled_p2 : bool;
  pendingInjection : bool;
  written : list StreamCall;
  handled : list (string * bool)
}.

Definition teamHandled (st : PipeState) (slot : PlayerSlot) : bool :=
  match slot with p1 => teamHandled_p1 st | p2 => teamHandled_p2 st end.

Definition setHandled (slot : PlayerSlot) (b : bool) (st : PipeState) : PipeState :=
  match slot with
  | p1 => mkPipe b (teamHandled_p2 st) (pendingInjection st) (written st) (handled st)
  | p2 => mkPipe (teamHandled_p1 st) b (pendingInjection st) (written st) (handled st)
  end.

Definition setPending (b : bool) (st : PipeState) : PipeState :=
  mkPipe (teamHandled_p1 st) (teamHandled_p2 st) b (written st) (handled st).

Definition streamWrite (chunk : string) (st : PipeState) : PipeState :=
  mkPipe (teamHandled_p1 st) (teamHandled_p2 st) (pendingInjection st)
         (written st ++ [Write chunk]) (handled st).

Definition noteLine (line : string) (hadNewline : bool) (st : PipeState) : PipeState :=
  mkPipe (teamHandled_p1 st) (teamHandled_p2 st) (pendingInjection st)
         (written st) (handled st ++ [(line, hadNewline)]).

Definition initialPipe (teams : Teams) : PipeState :=
  mkPipe (negb (hasTeam teams p1)) (negb (hasTeam teams p2)) false [] [].

(** [JSON.stringify({team: t})] *)
Definition teamJSON (t : string) : string :=
  "{" ++ JS.quoteJSONString "team" ++ ":" ++ JS.quoteJSONString t ++ "}".

(** The synthetic command for a slot. *)
Definition playerCommand (slot : PlayerSlot) (t : string) : string :=
  ">player " ++ slotName slot ++ " " ++ teamJSON t ++ JS.str JS.LF.

Definition injectSlot (teams : Teams) (st : PipeState) (slot : PlayerSlot) : PipeState :=
  match team teams slot with
  | Some t =>
      if negb (JS.nonEmpty t) || teamHandled st slot then st
      else setHandled slot true (streamWrite (playerCommand slot t) st)
  | None => st
  end.

Definition injectTeams (teams : Teams) (st : PipeState) : PipeState :=
  fold_left (injectSlot teams) PLAYER_SLOTS st.

Definition renderLine (line : string) (hadNewline : bool) : string :=
  if hadNewline then line ++ JS.str JS.LF else line.

Definition handleLine (teams : Teams) (line : string) (hadNewline : bool)
    (st : PipeState) : PipeState :=
  let st := noteLine line hadNewline st in
  let st :=
    if JS.startsWith line ">start"
    then setPending true
           (setHandled p2 (negb (hasTeam teams p2))
              (setHandled p1 (negb (hasTeam teams p1)) st))
    else st in
  let st := if JS.startsWith line ">player p1 " then setHandled p1 true st else st in
  let st := if JS.startsWith line ">player p2 " then setHandled p2 true st else st in
  streamWrite (renderLine line hadNewline) st.

Definition inspect {A} (a : A) : {b : A | a = b} := exist _ a eq_refl.

(** The inner [while (newlineIndex !== -1)] loop. *)
Equations? drain (teams : Teams) (buffer : string) (st : PipeState)
  : string * PipeState by wf (String.length buffer) lt :=
  drain teams buffer st with inspect (JS.indexOf buffer JS.LF) => {
    | exist _ None _ := (buffer, st);
    | exist _ (Some newlineIndex) e :=
        drain teams (JS.sliceFrom buffer (newlineIndex + 1))
              (handleLine teams (JS.slice buffer 0 newlineIndex) true st) }.
Proof.
  clear drain. revert newlineIndex e.
  unfold JS.sliceFrom.
  induction buffer as [|a t IH]; simpl; intros j Hj; [discriminate|].
  destruct (Ascii.eqb a JS.LF).
  - inversion Hj; subst; simpl.
    assert (forall u n, String.length (substring 0 n u) <= String.length u) as Hle.
    { induction u as [|c u IHu]; intros [|n]; simpl; try lia.
      specialize (IHu n). lia. }
    specialize (Hle t (String.length t - 0)). lia.
  - destruct (JS.indexOf t JS.LF) as [i|] eqn:E; [|discriminate].
    inversion Hj; subst; simpl.
    specialize (IH i eq_refl). lia.
Qed.

(** One iteration of [for await (const chunk of input)]. *)
Definition onChunk (teams : Teams) (acc : string * PipeState) (chunk : string)
  : string * PipeState :=
  let '(buffer, st) := acc in
  let '(buffer, st) := drain teams (buffer ++ chunk) st in
  let st := if pendingInjection st
            then setPending false (injectTeams teams st)
            else st in
  (buffer, st).

(** What follows the loop inside [try]: the unterminated tail and the last
    due-check. *)
Definition flush (teams : Teams) (acc : string * PipeState) : PipeState :=
  let '(buffer, st) := acc in
  let st := if JS.nonEmpty buffer then handleLine teams buffer false st else st in
  if pendingInjection st then injectTeams teams st else st.

(** [stream.writeEnd()] in [finally]. *)
Definition streamWriteEnd (st : PipeState) : PipeState :=
  mkPipe (teamHandled_p1 st) (teamHandled_p2 st) (pendingInjection st)
         (written st ++ [WriteEnd]) (handled st).

Definition feed (teams : Teams) (input : list string) : string * PipeState :=
  fold_left (onChunk teams) input (EmptyString, initialPipe teams).

Definition pipeInputWithTeams (teams : Teams) (input : list string) : PipeState :=
  streamWriteEnd (flush teams (feed teams input)).

Definition bothTeams (a b : string) : Teams := mkTeams (Some a) (Some b).


(** ** The read side: [JsonLogFormatter] and [pipeJsonOutput] *)

Module JsonLogFormatter.

Record State := mkState {
  currentTurn : option JS.number;
  battleTimestamp : option JS.number
}.

Definition fresh : State := mkState None None.

Record Entry := mkEntry {
  message : string;
  timestamp : string;
  turn : option JS.number;
  player : option string
}.

(** How a call of [format] ends. *)
Inductive Outcome :=
| Returned (entry : option Entry)
| RangeError.

Definition extractTimestamp (message : string) : option JS.number :=
  if negb (JS.startsWith message "|t:|") then None
  else
    let value := JS.Number (JS.sliceFrom message 4) in
    if JS.isFinite value then Some value else None.

Definition extractTurn (message : string) : option JS.number :=
  if negb (JS.startsWith message "|") then None
  else
    let parts := JS.split message "|" in
    if (List.length parts <? 3)%nat then None
    else if negb (String.eqb (nth 1 parts EmptyString) "turn") then None
    else
      let value := JS.Number (nth 2 parts EmptyString) in
      if JS.isFinite value then Some value else None.

Definition isSlotDigit (c : ascii) : bool :=
  let n := nat_of_ascii c in ((49 <=? n) && (n <=? 52))%nat.

(** [message.match(/p[1-4]/)]: the leftmost match, if any. *)
Fixpoint extractPlayer (message : string) : option string :=
  match message with
  | EmptyString => None
  | String c rest =>
      match rest with
      | String d _ =>
          if Ascii.eqb c "p" && isSlotDigit d then Some (String c (JS.str d))
          else extractPlayer rest
      | EmptyString => None
      end
  end.

(** [format(message)], with the wall-clock reading [now] (milliseconds)
    that [new Date()] would give. *)
Definition format (now : Z) (this : State) (message : string) : State * Outcome :=
  let trimmed := JS.trim message in
  if negb (JS.nonEmpty trimmed) || String.eqb trimmed "|" then (this, Returned None)
  else
    let this :=
      match extractTimestamp trimmed with
      | Some timestampSeconds => mkState (currentTurn this) (Some timestampSeconds)
      | None => this
      end in
    let this :=
      match extractTurn trimmed with
      | Some turn => mkState (Some turn) (battleTimestamp this)
      | None => this
      end in
    let player := extractPlayer trimmed in
    let iso :=
      match battleTimestamp this with
      | Some seconds => JS.toISOString (JS.dateOfNumber (JS.mul seconds (JS.ofZ 1000)))
      | None => JS.toISOString (Some now)
      end in
    match iso with
    | Some timestamp =>
        (this, Returned (Some (mkEntry trimmed timestamp (currentTurn this) player)))
    | None => (this, RangeError)
    end.

End JsonLogFormatter.

(** Calls made on the output writer.  [WriterWrite e] stands for
    [writer.write(JSON.stringify(e) + LF)]: one call per record. *)
Inductive WriterCall :=
| WriterWrite (entry : JsonLogFormatter.Entry)
| WriterEnd.

Record OutputState := mkOutput {
  formatter : JsonLogFormatter.State;
  formatCalls : nat;
  writerCalls : list WriterCall
}.

(** The promise of [pipeJsonOutput] is still running, or was rejected by an
    exception thrown in [format]. *)
Inductive Flow :=
| Running (st : OutputState)
| Rejected (st : OutputState).

(** The body of [for (const raw of lines)]; [clock n] is the wall-clock
    reading during the n-th call of [format].  The stream read and the
    writer calls are taken to succeed: the run can only be cut short by an
    exception of [format]. *)
Definition onRaw (clock : nat -> Z) (flow : Flow) (raw : string) : Flow :=
  match flow with
  | Rejected _ => flow
  | Running st =>
      if negb (JS.nonEmpty raw) then flow
      else
        match JsonLogFormatter.format (clock (formatCalls st)) (formatter st) raw with
        | (this, JsonLogFormatter.Returned None) =>
            Running (mkOutput this (S (formatCalls st)) (writerCalls st))
        | (this, JsonLogFormatter.Returned (Some entry)) =>
            Running (mkOutput this (S (formatCalls st))
                              (writerCalls st ++ [WriterWrite entry]))
        | (this, JsonLogFormatter.RangeError) =>
            Rejected (mkOutput this (S (formatCalls st)) (writerCalls st))
        end
  end.

(** The body of [for await (const chunk of stream)]. *)
Definition onOutputChunk (clock : nat -> Z) (flow : Flow) (chunk : string) : Flow :=
  fold_left (onRaw clock) (JS.split chunk JS.LF) flow.

Definition startOutput : Flow := Running (mkOutput JsonLogFormatter.fresh 0 []).

(** [await writer.writeEnd()], reached only if nothing was thrown. *)
Definition writerEnd (flow : Flow) : Flow :=
  match flow with
  | Running st =>
      Running (mkOutput (formatter st) (formatCalls st) (writerCalls st ++ [WriterEnd]))
  | Rejected st => Rejected st
  end.

Definition pipeJsonOutput (clock : nat -> Z) (chunks : list string) : Flow :=
  writerEnd (fold_left (onOutputChunk clock) chunks startOutput).

Definition entriesOf (flow : Flow) : list JsonLogFormatter.Entry :=
  let st := match flow with Running st | Rejected st => st end in
  flat_map (fun c => match c with WriterWrite e => [e] | WriterEnd => [] end)
           (writerCalls st).

(** ** Start-up: [main] and the option parsers *)

Inductive LogFormat := text | json.

Definition LOG_FORMATS : list LogFormat := [text; json].

Definition logFormatName (f : LogFormat) : string :=
  match f with text => "text" | json => "json" end.

(** A value as [parseArgs] returns it when [strict] is off. *)
Inductive jsvalue :=
| undefined
| jsString (s : string)
| jsBoolean (b : bool).

Definition truthy (v : jsvalue) : bool :=
  match v with
  | undefined => false
  | jsString s => JS.nonEmpty s
  | jsBoolean b => b
  end.

Inductive ReplayOption := replayOff | replayOn | replaySpectator.

(** [Partial<CLIOptions>] as [parseArgs] fills it with [strict] off: every
    option can be missing, a string, or a boolean ([true] for a string option
    given without a value). *)
Record CLIValues := mkValues {
  opt_debug : jsvalue;
  opt_no_catch : jsvalue;
  opt_keep_alive : jsvalue;
  opt_replay : jsvalue;
  opt_log_format : jsvalue;
  opt_seed : jsvalue;
  opt_log_file : jsvalue;
  opt_p1_team_file : jsvalue;
  opt_p2_team_file : jsvalue;
  opt_interactive_stdin : jsvalue
}.

Definition teamFileOption (values : CLIValues) (slot : PlayerSlot) : jsvalue :=
  match slot with p1 => opt_p1_team_file values | p2 => opt_p2_team_file values end.

Section Startup.

(** Collaborators that live outside this file. *)
Context {PRNGSeed PokemonSet : Type}.
(** [new PRNG(seed).startingSeed], or the message of what it throws. *)
Variable PRNG_new : string -> PRNGSeed + string.
Variable PRNG_generateSeed : PRNGSeed.
(** [readFileSync(path, 'utf8')], or the message of what it throws. *)
Variable readFileSync : string -> string + string.
(** [Teams.import] ([None] for [null]) and [Teams.pack]. *)
Variable Teams_import : string -> option (list PokemonSet).
Variable Teams_pack : list PokemonSet -> string.

Inductive Output := Stdout | LogFile (path : string).

Record BattleStreamOptions := mkOptions {
  bs_debug : bool;
  bs_noCatch : bool;
  bs_keepAlive : bool;
  bs_replay : ReplayOption;
  bs_seed : option PRNGSeed
}.

(** What the process does that the outside can see, in order. *)
Inductive Effect :=
| DexIncludeFormats
| ConsoleError (text : string)
| ProcessExit (code : Z)
| CreateWriteStream (path : string)
| OnStreamError (path : string)
| ReadFile (path : string)
| UncaughtTypeError
| NewBattleStream (options : BattleStreamOptions)
| StdinPipeTo
| PipeInputWithTeams (teams : Teams)
| PipeJsonOutput (output : Output)
| BattleStreamPipeTo (output : Output).

(** A computation that logs effects and may end the process. *)
Definition Proc (A : Type) : Type := list Effect * option A.

Definition ret {A} (a : A) : Proc A := ([], Some a).

Definition bind {A B} (m : Proc A) (k : A -> Proc B) : Proc B :=
  match m with
  | (log, Some a) => let '(log', r) := k a in ((log ++ log')%list, r)
  | (log, None) => (log, None)
  end.

Definition emit (e : Effect) : Proc unit := ([e], Some tt).

(** [process.exit(code)] *)
Definition exit {A} (code : Z) : Proc A := ([ProcessExit code], None).

(** A [TypeError] thrown in [main], which nothing catches: the process
    ends there. *)
Definition throwTypeError {A} : Proc A := ([UncaughtTypeError], None).

Notation "x <- m ;; k" := (bind m (fun x => k))
  (at level 61, m at next level, right associativity).
Notation "m ;;; k" := (bind m (fun _ => k))
  (at level 61, right associativity).

Definition quoted (s : string) : string := JS.str JS.DQUOTE ++ s ++ JS.str JS.DQUOTE.

Definition findFormat (name : string) : option LogFormat :=
  find (fun f => String.eqb (logFormatName f) name) LOG_FORMATS.

Definition parseLogFormat (value : jsvalue) : Proc LogFormat :=
  match value with
  | jsString value =>
      let normalized := JS.toLowerCase value in
      match findFormat normalized with
      | Some f => ret f
      | None =>
          emit (ConsoleError ("Unknown log format " ++ quoted value
                  ++ ". Supported formats: "
                  ++ String.concat ", " (map logFormatName LOG_FORMATS) ++ ".")) ;;;
          exit 1
      end
  | _ => ret text
  end.

(** [None] is [undefined]. *)
Definition parseReplayOption (value : jsvalue) : option ReplayOption :=
  match value with
  | undefined => None
  | jsString value =>
      if negb (JS.nonEmpty value) then Some replayOn
      else if String.eqb value "spectator" then Some replaySpectator
      else Some replayOn
  | jsBoolean value => Some (if value then replayOn else replayOff)
  end.

Definition parseSeed (value : jsvalue) : Proc (option PRNGSeed) :=
  match value with
  | undefined => ret None
  | jsBoolean _ =>
      emit (ConsoleError "Seed must be provided as a string.") ;;; exit 1
  | jsString value =>
      let trimmed := JS.trim value in
      if negb (JS.nonEmpty trimmed) then
        emit (ConsoleError "Seed cannot be an empty string.") ;;; exit 1
      else if String.eqb (JS.toLowerCase trimmed) "random" then
        ret (Some PRNG_generateSeed)
      else
        match PRNG_new trimmed with
        | inl startingSeed => ret (Some startingSeed)
        | inr err =>
            emit (ConsoleError ("Invalid seed " ++ quoted value ++ ".")) ;;;
            emit (ConsoleError err) ;;;
            exit 1
        end
  end.

(** The listener [openLogFile] puts on the stream: what it does if the
    stream ever reports an error. *)
Definition logFileFailed (path err : string) : Proc unit :=
  emit (ConsoleError ("Failed to write log output to " ++ path ++ ": " ++ err)) ;;;
  exit 1.

(** [openLogFile(path)] for a string; [OnStreamError] is the call of
    [stream.on('error', ...)] that installs [logFileFailed]. *)
Definition openLogFile (path : string) : Proc Output :=
  if negb (JS.nonEmpty path) then
    emit (ConsoleError "Log file path cannot be empty.") ;;; exit 1
  else
    emit (CreateWriteStream path) ;;;
    emit (OnStreamError path) ;;;
    ret (LogFile path).

(** [logFile ? new Streams.WriteStream({nodeStream: openLogFile(logFile)})
    : Streams.stdout()].  For [true], [openLogFile] passes its test of
    emptiness and [createWriteStream(true)] throws. *)
Definition openOutput (values : CLIValues) : Proc Output :=
  match opt_log_file values with
  | jsString logFile =>
      if JS.nonEmpty logFile then openLogFile logFile else ret Stdout
  | jsBoolean true => throwTypeError
  | jsBoolean false | undefined => ret Stdout
  end.

Definition upperSlot (slot : PlayerSlot) : string :=
  match slot with p1 => "P1" | p2 => "P2" end.

Definition loadTeamFromFile (path : string) (slot : PlayerSlot) : Proc string :=
  let trimmed := JS.trim path in
  if negb (JS.nonEmpty trimmed) then
    emit (ConsoleError ("Team file path for " ++ upperSlot slot ++ " cannot be empty.")) ;;;
    exit 1
  else
    emit (ReadFile trimmed) ;;;
    match readFileSync trimmed with
    | inr err =>
        emit (ConsoleError ("Failed to read team file for " ++ upperSlot slot
                              ++ " at " ++ trimmed ++ ".")) ;;;
        emit (ConsoleError err) ;;;
        exit 1
    | inl contents =>
        match Teams_import contents with
        | None | Some [] =>
            emit (ConsoleError ("Team file for " ++ upperSlot slot
                                  ++ " is empty or invalid.")) ;;;
            exit 1
        | Some imported =>
            let packed := Teams_pack imported in
            if negb (JS.nonEmpty packed) then
              emit (ConsoleError ("Failed to serialize team file for "
                                    ++ upperSlot slot ++ ".")) ;;;
              exit 1
            else ret packed
        end
    end.

(** One round of [for (const slot of PLAYER_SLOTS)] in [main].  For
    [true], [loadTeamFromFile] starts with [path.trim()], which throws. *)
Definition loadSlot (values : CLIValues) (slot : PlayerSlot) : Proc (option string) :=
  match teamFileOption values slot with
  | jsString teamPath =>
      if JS.nonEmpty teamPath
      then packed <- loadTeamFromFile teamPath slot ;; ret (Some packed)
      else ret None
  | jsBoolean true => throwTypeError
  | jsBoolean false | undefined => ret None
  end.

Definition conflictMessage : string :=
  "Team file options cannot be combined with --interactive-stdin.".

Definition main (values : CLIValues) : Proc unit :=
  emit DexIncludeFormats ;;;
  logFormat <- parseLogFormat (opt_log_format values) ;;
  let replay := parseReplayOption (opt_replay values) in
  seed <- parseSeed (opt_seed values) ;;
  let interactive := truthy (opt_interactive_stdin values) in
  output <- openOutput values ;;
  team1 <- loadSlot values p1 ;;
  team2 <- loadSlot values p2 ;;
  let teams := mkTeams team1 team2 in
  (if interactive && (hasTeam teams p1 || hasTeam teams p2)
   then emit (ConsoleError conflictMessage) ;;; exit 1
   else ret tt) ;;;
  emit (NewBattleStream
          (mkOptions (truthy (opt_debug values)) (truthy (opt_no_catch values))
                     (truthy (opt_keep_alive values))
                     (match replay with Some r => r | None => replayOff end)
                     seed)) ;;;
  (if interactive then emit StdinPipeTo else emit (PipeInputWithTeams teams)) ;;;
  match logFormat with
  | json => emit (PipeJsonOutput output)
  | text => emit (BattleStreamPipeTo output)
  end.

(** The effects that come before any battle stream exists. *)
Definition beforeEngine (e : Effect) : bool :=
  match e with
  | DexIncludeFormats | ConsoleError _ | CreateWriteStream _ | OnStreamError _
  | ReadFile _ => true
  | _ => false
  end.

End Startup.

(** ** Vocabulary of the statements *)

(** The complete lines of a text and its unterminated tail. *)
Fixpoint splitLines (s : string) : list string * string :=
  match s with
  | EmptyString => ([], EmptyString)
  | String a s' =>
      let '(ls, tail) := splitLines s' in
      if Ascii.eqb a JS.LF then (EmptyString :: ls, tail)
      else match ls with
           | [] => ([], String a tail)
           | l :: ls' => (String a l :: ls', tail)
           end
  end.

Definition terminated (ls : list string) : list (string * bool) :=
  map (fun l => (l, true)) ls.

Definition unterminated (tail : string) : list (string * bool) :=
  if JS.nonEmpty tail then [(tail, false)] else [].

(** The lines of a whole text, each with its terminator flag. *)
Definition linesOf (text : string) : list (string * bool) :=
  terminated (fst (splitLines text)) ++ unterminated (snd (splitLines text)).

Definition renderAll (ls : list (string * bool)) : list StreamCall :=
  map (fun lb => Write (renderLine (fst lb) (snd lb))) ls.

(** The text that reaches the engine: the written chunks end to end. *)
Fixpoint wire (calls : list StreamCall) : string :=
  match calls with
  | [] => EmptyString
  | Write chunk :: rest => chunk ++ wire rest
  | WriteEnd :: rest => wire rest
  end.

Definition isStart (lb : string * bool) : bool := JS.startsWith (fst lb) ">start".

Definition namesSlot (slot : PlayerSlot) (lb : string * bool) : bool :=
  JS.startsWith (fst lb) (">player " ++ slotName slot ++ " ").

(** Neither a session-start marker nor an explicit player command. *)
Definition ordinary (lb : string * bool) : bool :=
  negb (isStart lb) && negb (namesSlot p1 lb) && negb (namesSlot p2 lb).

(** The whole input text. *)
Definition textOf (input : list string) : string :=
  fold_right String.append EmptyString input.

(** The state once [n] steps are done: the chunks are steps [0] to
    [length input - 1], the flush at the end of the stream is the last
    step (before [writeEnd]). *)
Definition stateAfter (teams : Teams) (input : list string) (n : nat) : PipeState :=
  if (n <=? List.length input)%nat then snd (feed teams (firstn n input))
  else flush teams (feed teams input).

(** The synthetic commands due for the slots that have a team and were not
    named by any line of [after]. *)
Definition commandsDue (teams : Teams) (after : list (string * bool)) : list StreamCall :=
  flat_map (fun slot =>
              match team teams slot with
              | Some t =>
                  if JS.nonEmpty t && negb (existsb (namesSlot slot) after)
                  then [Write (playerCommand slot t)] else []
              | None => []
              end) PLAYER_SLOTS.

Definition StreamCall_eq_dec (x y : StreamCall) : {x = y} + {x <> y}.
Proof. decide equality. apply string_dec. Defined.

Definition occurrences (c : StreamCall) (calls : list StreamCall) : nat :=
  count_occ StreamCall_eq_dec calls c.

(** The first line of a buffer and what follows its terminator. *)
Fixpoint cut (s : string) : option (string * string) :=
  match s with
  | EmptyString => None
  | String a s' =>
      if Ascii.eqb a JS.LF then Some (EmptyString, s')
      else match cut s' with
           | Some (l, r) => Some (String a l, r)
           | None => None
           end
  end.

(** One step seen from the lines it delivers: every line is handled, then
    the due-check runs. *)
Definition handleAll (teams : Teams) (ls : list (string * bool)) (st : PipeState)
  : PipeState :=
  fold_left (fun st lb => handleLine teams (fst lb) (snd lb) st) ls st.


Definition afterLines (teams : Teams) (ls : list (string * bool)) (st : PipeState)
  : PipeState :=
  let st := handleAll teams ls st in
  if pendingInjection st then injectTeams teams st else st.

(** The lines a step delivers: a function of the text received so far. *)
Definition stepLines (teams : Teams) (input : list string) (n : nat)
  : list (string * bool) :=
  let buffer := fst (feed teams (firstn n input)) in
  if (n <? List.length input)%nat
  then terminated (fst (splitLines (buffer ++ nth n input EmptyString)%string))
  else unterminated buffer.

(** The lines delivered by the [k] steps that start at step [n]. *)
Definition linesBetween (teams : Teams) (input : list string) (n k : nat)
  : list (string * bool) :=
  flat_map (stepLines teams input) (seq n k).

Definition markers (ls : list (string * bool)) : nat :=
  List.length (filter isStart ls).

(** Injection deference as the specification words it: once a line naming
    p1 follows the marker before the due-check of its step, the step writes
    the p2 command alone, and later marker-free steps write their lines only. *)
Definition deference_as_stated : Prop :=
  forall (a b : string) (input : list string) (n : nat)
         (l1 : list (string * bool)) (m : string * bool) (l2 : list (string * bool)),
    JS.nonEmpty a = true -> JS.nonEmpty b = true ->
    (n <= List.length input)%nat ->
    handled (stateAfter (bothTeams a b) input (S n)) =
      (handled (stateAfter (bothTeams a b) input n) ++ l1 ++ m :: l2)%list ->
    isStart m = true -> existsb isStart l2 = false ->
    existsb (namesSlot p1) l2 = true ->
    written (stateAfter (bothTeams a b) input (S n)) =
      (written (stateAfter (bothTeams a b) input n) ++ renderAll (l1 ++ m :: l2)
         ++ [Write (playerCommand p2 b)])%list
    /\ forall k more,
         (S n + k <= S (List.length input))%nat ->
         handled (stateAfter (bothTeams a b) input (S n + k)) =
           (handled (stateAfter (bothTeams a b) input (S n)) ++ more)%list ->
         existsb isStart more = false ->
         written (stateAfter (bothTeams a b) input (S n + k)) =
           (written (stateAfter (bothTeams a b) input (S n)) ++ renderAll more)%list.

(** Re-arming as the specification words it: with two or more markers,
    every slot that has a team gets one synthetic command per marker. *)
Definition rearming_as_stated : Prop :=
  forall (teams : Teams) (input : list string) (slot : PlayerSlot) (t : string),
    (2 <= markers (linesOf (textOf input)))%nat ->
    team teams slot = Some t -> JS.nonEmpty t = true ->
    occurrences (Write (playerCommand slot t))
                (written (pipeInputWithTeams teams input))
      = markers (linesOf (textOf input)).

(** Several calls of [format] on one formatter, each with the wall-clock
    reading of its moment. *)
Fixpoint formatAll (this : JsonLogFormatter.State) (calls : list (Z * string))
  : JsonLogFormatter.State * list JsonLogFormatter.Outcome :=
  match calls with
  | [] => (this, [])
  | (now, message) :: rest =>
      let '(this, outcome) := JsonLogFormatter.format now this message in
      let '(final, outcomes) := formatAll this rest in
      (final, outcome :: outcomes)
  end.

(** The states a formatter goes through as long as [format] returns, which
    is how [pipeJsonOutput] uses it: a thrown exception ends the run. *)
Inductive reachable : JsonLogFormatter.State -> Prop :=
| reachable_fresh : reachable JsonLogFormatter.fresh
| reachable_format now this message this' entry :
    reachable this ->
    JsonLogFormatter.format now this message
      = (this', JsonLogFormatter.Returned entry) ->
    reachable this'.

(** The time stamp of a record made from the stored seconds, or from the
    wall clock when none is stored. *)
Definition stampOf (now : Z) (stored : option JS.number) : option string :=
  match stored with
  | Some seconds => JS.toISOString (JS.dateOfNumber (JS.mul seconds (JS.ofZ 1000)))
  | None => JS.toISOString (Some now)
  end.

(** The read side as the specification words it: a line that gives one
    record when it arrives whole gives one record when it arrives in two
    chunks. *)
Definition tail_retained_as_stated : Prop :=
  forall (clock : nat -> Z) (a b : string),
    JS.indexOf (a ++ b) JS.LF = None ->
    List.length (entriesOf (pipeJsonOutput clock [a ++ b ++ JS.str JS.LF])) = 1%nat ->
    List.length (entriesOf (pipeJsonOutput clock [a; b ++ JS.str JS.LF])) = 1%nat.

(** [p] followed by one of the digits 1 to 4. *)
Definition slotToken (token : string) : Prop :=
  exists d, token = String "p" (JS.str d) /\ JsonLogFormatter.isSlotDigit d = true.

(** [token] occurs in [s] at index [i]. *)
Definition occursAt (token s : string) (i : nat) : Prop :=
  exists pre post, s = pre ++ token ++ post /\ String.length pre = i.

(** A log that ends the process the fatal way: a diagnostic, then exit
    status 1, and before them nothing that touches a battle stream. *)
Definition fatal {PRNGSeed : Type} (log : list (@Effect PRNGSeed)) : Prop :=
  exists pre text,
    log = (pre ++ [ConsoleError text; ProcessExit 1])%list
    /\ forallb beforeEngine pre = true.

(** A log that ends with a [TypeError] nothing catches, before anything
    touched a battle stream. *)
Definition crashed {PRNGSeed : Type} (log : list (@Effect PRNGSeed)) : Prop :=
  exists pre,
    log = (pre ++ [UncaughtTypeError])%list /\ forallb beforeEngine pre = true.

(** A start-up stage either goes on, having touched no battle stream, or
    ends the process: the fatal way, or by a [TypeError]. *)
Definition stageOk {PRNGSeed A : Type} (m : @Proc PRNGSeed A) : Prop :=
  match m with
  | (log, Some _) => forallb beforeEngine log = true
  | (log, None) => fatal log \/ crashed log
  end.

Definition exitsFatal {PRNGSeed A : Type} (m : @Proc PRNGSeed A) : Prop :=
  forall log, m = (log, None) -> fatal log \/ crashed log.

Definition isTypeError {PRNGSeed : Type} (e : @Effect PRNGSeed) : bool :=
  match e with UncaughtTypeError => true | _ => false end.

(** A computation in whose log no [TypeError] is thrown. *)
Definition throwsNothing {PRNGSeed A : Type} (m : @Proc PRNGSeed A) : Prop :=
  forallb (fun e => negb (isTypeError e)) (fst m) = true.

(** A path option given without a value. *)
Definition valueless (v : jsvalue) : bool :=
  match v with jsBoolean true => true | _ => false end.

(** The conflict as the specification words it: team file options given
    together with the verbatim mode always get the conflict reported. *)
Definition conflict_as_stated : Prop :=
  forall (PRNGSeed PokemonSet : Type)
         (PRNG_new : string -> PRNGSeed + string) (PRNG_generateSeed : PRNGSeed)
         (readFileSync : string -> string + string)
         (Teams_import : string -> option (list PokemonSet))
         (Teams_pack : list PokemonSet -> string) (values : CLIValues),
    truthy (opt_interactive_stdin values) = true ->
    (exists slot, truthy (teamFileOption values slot) = true) ->
    In (ConsoleError conflictMessage)
       (fst (main PRNG_new PRNG_generateSeed readFileSync Teams_import Teams_pack
                  values)).

(** ** Further vocabulary: the output of a step, the kept segments *)

(** The lines behind the last marker of a list of lines, if it holds one. *)
Fixpoint behindLastMarker (ls : list (string * bool)) : option (list (string * bool)) :=
  match ls with
  | [] => None
  | lb :: rest =>
      match behindLastMarker rest with
      | Some after => Some after
      | None => if isStart lb then Some rest else None
      end
  end.

(** What a step injects, read off the lines it delivers. *)
Definition injectionOf (teams : Teams) (ls : list (string * bool)) : list StreamCall :=
  match behindLastMarker ls with
  | Some after => commandsDue teams after
  | None => []
  end.

(** Everything a step writes. *)
Definition stepOutput (teams : Teams) (input : list string) (n : nat)
  : list StreamCall :=
  (renderAll (stepLines teams input n)
     ++ injectionOf teams (stepLines teams input n))%list.

(** A trimmed line that [format] turns into a record. *)
Definition kept (trimmed : string) : bool :=
  JS.nonEmpty trimmed && negb (String.eqb trimmed "|").

(** The pieces [pipeJsonOutput] looks at: every chunk split at its line
    feeds. *)
Definition segments (chunks : list string) : list string :=
  flat_map (fun chunk => JS.split chunk JS.LF) chunks.

Definition flowState (flow : Flow) : OutputState :=
  match flow with Running st | Rejected st => st end.

(** The path an option names: a string that is not empty. *)
Definition dropEmpty (path : jsvalue) : option string :=
  match path with
  | jsString p => if JS.nonEmpty p then Some p else None
  | _ => None
  end.

(** An option with the empty string taken as absent. *)
Definition emptyAsAbsent (v : jsvalue) : jsvalue :=
  match v with
  | jsString p => if JS.nonEmpty p then v else undefined
  | _ => v
  end.

Definition withoutEmptyPaths (values : CLIValues) : CLIValues :=
  mkValues (opt_debug values) (opt_no_catch values) (opt_keep_alive values)
           (opt_replay values) (opt_log_format values) (opt_seed values)
           (emptyAsAbsent (opt_log_file values))
           (emptyAsAbsent (opt_p1_team_file values))
           (emptyAsAbsent (opt_p2_team_file values))
           (opt_interactive_stdin values).

(** A string made of white space only. *)
Fixpoint allWhiteSpace (s : string) : bool :=
  match s with
  | EmptyString => true
  | String c s' => JS.isWhiteSpace c && allWhiteSpace s'
  end.

Definition CR : ascii := ascii_of_nat 13.
Definition TAB : ascii := ascii_of_nat 9.
(** * Properties *)

Open Scope list_scope.

(** ** The model at work *)

Example Number_examples :
  JS.Number "1000" = JS.ofZ 1000
  /\ JS.Number " 5 " = JS.ofZ 5
  /\ JS.Number "" = S754_zero false
  /\ JS.Number "0x10" = JS.ofZ 16
  /\ JS.Number "0.1" = S754_finite false 7205759403792794 (-56)
  /\ JS.Number "-Infinity" = S754_infinity true
  /\ JS.Number "1e400" = S754_infinity false
  /\ JS.Number "notanumber" = S754_nan
  /\ JS.Number "1_000" = S754_nan.
Proof. vm_compute. repeat split. Qed.

Example toISOString_examples :
  JS.isoOfTime 0 = "1970-01-01T00:00:00.000Z"%string
  /\ JS.isoOfTime 951782400000 = "2000-02-29T00:00:00.000Z"%string
  /\ JS.isoOfTime (-1) = "1969-12-31T23:59:59.999Z"%string
  /\ JS.isoOfTime 8640000000000000 = "+275760-09-13T00:00:00.000Z"%string
  /\ JS.dateOfNumber (JS.Number "8640000000000001") = None
  /\ JS.dateOfNumber (JS.mul (JS.Number "1000.9") (JS.ofZ 1000)) = Some 1000900%Z.
Proof. vm_compute. repeat split. Qed.

Example playerCommand_example :
  playerCommand p2 "Pikachu||" =
    (">player p2 {" ++ JS.str JS.DQUOTE ++ "team" ++ JS.str JS.DQUOTE ++ ":"
       ++ JS.str JS.DQUOTE ++ "Pikachu||" ++ JS.str JS.DQUOTE ++ "}"
       ++ JS.str JS.LF)%string.
Proof. reflexivity. Qed.

Example pipeInputWithTeams_example :
  written (pipeInputWithTeams (bothTeams "A" "B")
             [">sta"; ("rt {}" ++ JS.str JS.LF ++ ">player p1 {}" ++ JS.str JS.LF
                         ++ ">p1 te")%string;
              EmptyString; ("am 123" ++ JS.str JS.LF)%string])
  = [Write (">start {}" ++ JS.str JS.LF)%string;
     Write (">player p1 {}" ++ JS.str JS.LF)%string;
     Write (playerCommand p2 "B");
     Write (">p1 team 123" ++ JS.str JS.LF)%string;
     WriteEnd].
Proof. vm_compute. reflexivity. Qed.

(** ** Strings *)

Lemma append_nil_r (s : string) : (s ++ "")%string = s.
Proof. induction s; simpl; congruence. Qed.

Lemma append_assoc (s t u : string) : ((s ++ t) ++ u = s ++ t ++ u)%string.
Proof. induction s; simpl; congruence. Qed.

Lemma substring_whole (s : string) : substring 0 (String.length s) s = s.
Proof. induction s; simpl; congruence. Qed.

Lemma startsWith_app (s p : string) :
  JS.startsWith s p = true <-> exists x, s = (p ++ x)%string.
Proof.
  unfold JS.startsWith. revert s.
  induction p as [|c p IH]; intros s; simpl.
  - split; [intros _; exists s; reflexivity | intros _; destruct s; reflexivity].
  - destruct s as [|d s]; simpl.
    + split; [discriminate | intros [x Hx]; discriminate].
    + destruct (ascii_dec c d) as [->|Hne].
      * rewrite IH. split; intros [x Hx]; exists x; congruence.
      * split; [discriminate | intros [x Hx]; congruence].
Qed.

Lemma indexOf_cut (s : string) :
  match JS.indexOf s JS.LF with
  | Some i => cut s = Some (JS.slice s 0 i, JS.sliceFrom s (i + 1))
  | None => cut s = None
  end.
Proof.
  induction s as [|a s IH]; simpl; [reflexivity|].
  destruct (Ascii.eqb a JS.LF).
  - unfold JS.slice, JS.sliceFrom. simpl.
    rewrite Nat.sub_0_r, substring_whole. reflexivity.
  - destruct (JS.indexOf s JS.LF) as [i|]; rewrite IH; [|reflexivity].
    unfold JS.slice, JS.sliceFrom. simpl. rewrite !Nat.sub_0_r. reflexivity.
Qed.

Lemma cut_splitLines (s : string) :
  match cut s with
  | Some (l, r) => splitLines s = (l :: fst (splitLines r), snd (splitLines r))
  | None => splitLines s = ([], s)
  end.
Proof.
  induction s as [|a s IH]; simpl; [reflexivity|].
  destruct (Ascii.eqb a JS.LF).
  - destruct (splitLines s); reflexivity.
  - destruct (cut s) as [[l r]|]; rewrite IH; reflexivity.
Qed.

(** The loop hands every complete line of the buffer to [handleLine], in
    order, and keeps the unterminated tail. *)
Lemma drain_splitLines teams buffer st :
  drain teams buffer st =
    (snd (splitLines buffer),
     handleAll teams (terminated (fst (splitLines buffer))) st).
Proof.
  funelim (drain teams buffer st);
    pose proof (indexOf_cut buffer) as Hc; rewrite e in Hc;
    pose proof (cut_splitLines buffer) as Hs; rewrite Hc in Hs.
  - rewrite H, Hs. reflexivity.
  - rewrite Hs. reflexivity.
Qed.

(** ** The coordinator, line by line *)

Lemma isStart_not_namesSlot slot lb : isStart lb = true -> namesSlot slot lb = false.
Proof.
  unfold isStart, namesSlot. intros H.
  apply startsWith_app in H. destruct H as [x Hx]. rewrite Hx.
  destruct slot; reflexivity.
Qed.

Lemma handleLine_handled teams l b st :
  handled (handleLine teams l b st) = handled st ++ [(l, b)].
Proof.
  unfold handleLine.
  destruct (JS.startsWith l ">start"), (JS.startsWith l ">player p1 "),
    (JS.startsWith l ">player p2 "); reflexivity.
Qed.

Lemma handleLine_written teams l b st :
  written (handleLine teams l b st) = written st ++ [Write (renderLine l b)].
Proof.
  unfold handleLine.
  destruct (JS.startsWith l ">start"), (JS.startsWith l ">player p1 "),
    (JS.startsWith l ">player p2 "); reflexivity.
Qed.

Lemma handleLine_pending teams l b st :
  pendingInjection (handleLine teams l b st) = isStart (l, b) || pendingInjection st.
Proof.
  unfold handleLine, isStart. simpl.
  destruct (JS.startsWith l ">start"), (JS.startsWith l ">player p1 "),
    (JS.startsWith l ">player p2 "); reflexivity.
Qed.

Lemma handleLine_teamHandled teams l b st slot :
  teamHandled (handleLine teams l b st) slot =
    if namesSlot slot (l, b) then true
    else if isStart (l, b) then negb (hasTeam teams slot)
    else teamHandled st slot.
Proof.
  unfold handleLine, isStart, namesSlot. simpl.
  destruct slot; simpl;
  destruct (JS.startsWith l ">start"), (JS.startsWith l ">player p1 "),
    (JS.startsWith l ">player p2 "); reflexivity.
Qed.

Lemma handleAll_app teams l1 l2 st :
  handleAll teams (l1 ++ l2) st = handleAll teams l2 (handleAll teams l1 st).
Proof. apply fold_left_app. Qed.

Lemma handleAll_handled teams ls st :
  handled (handleAll teams ls st) = handled st ++ ls.
Proof.
  revert st. induction ls as [|[l b] ls IH]; intros st; simpl.
  - now rewrite app_nil_r.
  - unfold handleAll in *. simpl. rewrite IH, handleLine_handled, <- app_assoc.
    reflexivity.
Qed.

Lemma handleAll_written teams ls st :
  written (handleAll teams ls st) = written st ++ renderAll ls.
Proof.
  revert st. induction ls as [|[l b] ls IH]; intros st; simpl.
  - now rewrite app_nil_r.
  - unfold handleAll in *. simpl. rewrite IH, handleLine_written, <- app_assoc.
    reflexivity.
Qed.

Lemma handleAll_pending teams ls st :
  pendingInjection (handleAll teams ls st) = existsb isStart ls || pendingInjection st.
Proof.
  revert st. induction ls as [|[l b] ls IH]; intros st; simpl; [reflexivity|].
  unfold handleAll in *. simpl. rewrite IH, handleLine_pending.
  destruct (isStart (l, b)), (existsb isStart ls); reflexivity.
Qed.

(** Without a marker the flags only ever go up. *)
Lemma handleAll_teamHandled_quiet teams ls st slot :
  existsb isStart ls = false ->
  teamHandled (handleAll teams ls st) slot =
    teamHandled st slot || existsb (namesSlot slot) ls.
Proof.
  revert st. induction ls as [|[l b] ls IH]; intros st H; simpl in *.
  - now rewrite orb_false_r.
  - apply orb_false_elim in H. destruct H as [Hm Hq].
    unfold handleAll in *. simpl. rewrite (IH _ Hq), handleLine_teamHandled, Hm.
    destruct (namesSlot slot (l, b)), (teamHandled st slot); reflexivity.
Qed.

(** After the last marker of a step, only the lines behind it count. *)
Lemma handleAll_teamHandled_marker teams l1 m l2 st slot :
  isStart m = true -> existsb isStart l2 = false ->
  teamHandled (handleAll teams (l1 ++ m :: l2) st) slot =
    negb (hasTeam teams slot) || existsb (namesSlot slot) l2.
Proof.
  intros Hm Hq. rewrite handleAll_app.
  change (handleAll teams (m :: l2) ?s)
    with (handleAll teams l2 (handleLine teams (fst m) (snd m) s)).
  rewrite (handleAll_teamHandled_quiet _ _ _ _ Hq), handleLine_teamHandled.
  destruct m as [l b]. simpl fst. simpl snd.
  rewrite (isStart_not_namesSlot slot _ Hm), Hm. reflexivity.
Qed.

Lemma injectSlot_frame teams st slot :
  handled (injectSlot teams st slot) = handled st
  /\ pendingInjection (injectSlot teams st slot) = pendingInjection st.
Proof.
  unfold injectSlot. destruct (team teams slot) as [t|]; [|now split].
  destruct (negb (JS.nonEmpty t) || teamHandled st slot); [now split|].
  destruct slot; now split.
Qed.

Lemma injectTeams_handled teams st : handled (injectTeams teams st) = handled st.
Proof.
  unfold injectTeams. simpl.
  rewrite (proj1 (injectSlot_frame _ _ _)). apply injectSlot_frame.
Qed.

Lemma injectTeams_pending teams st :
  pendingInjection (injectTeams teams st) = pendingInjection st.
Proof.
  unfold injectTeams. simpl.
  rewrite (proj2 (injectSlot_frame _ _ _)). apply injectSlot_frame.
Qed.

(** What [injectTeams] writes, read off the two flags. *)
Lemma injectTeams_written teams st :
  written (injectTeams teams st) =
    written st ++
    flat_map (fun slot =>
                match team teams slot with
                | Some t =>
                    if JS.nonEmpty t && negb (teamHandled st slot)
                    then [Write (playerCommand slot t)] else []
                | None => []
                end) PLAYER_SLOTS.
Proof.
  unfold injectTeams, injectSlot. simpl.
  destruct (team_p1 teams) as [a|], (team_p2 teams) as [b|]; simpl;
    repeat match goal with
           | |- context [JS.nonEmpty ?t] => destruct (JS.nonEmpty t); simpl
           | |- context [teamHandled_p1 ?s] => destruct (teamHandled_p1 s); simpl
           | |- context [teamHandled_p2 ?s] => destruct (teamHandled_p2 s); simpl
           end;
    rewrite ?app_nil_r, <- ?app_assoc; reflexivity.
Qed.

(** ** One step: the lines of a chunk, then the due-check *)

Lemma afterLines_handled teams ls st :
  handled (afterLines teams ls st) = handled st ++ ls.
Proof.
  unfold afterLines. destruct (pendingInjection (handleAll teams ls st));
    rewrite ?injectTeams_handled; apply handleAll_handled.
Qed.

Lemma afterLines_quiet teams ls st :
  pendingInjection st = false -> existsb isStart ls = false ->
  written (afterLines teams ls st) = written st ++ renderAll ls.
Proof.
  intros Hp Hq. unfold afterLines.
  rewrite handleAll_pending, Hp, Hq. simpl. apply handleAll_written.
Qed.

Lemma afterLines_marker teams l1 m l2 st :
  isStart m = true -> existsb isStart l2 = false ->
  written (afterLines teams (l1 ++ m :: l2) st) =
    written st ++ renderAll (l1 ++ m :: l2) ++ commandsDue teams l2.
Proof.
  intros Hm Hq. unfold afterLines.
  rewrite handleAll_pending, existsb_app. simpl existsb. rewrite Hm.
  rewrite orb_true_r. simpl.
  rewrite injectTeams_written, handleAll_written, <- app_assoc.
  do 2 f_equal. unfold commandsDue. apply flat_map_ext. intros slot.
  rewrite (handleAll_teamHandled_marker teams l1 m l2 st slot Hm Hq).
  unfold hasTeam. destruct (team teams slot) as [t|]; [|reflexivity].
  destruct (JS.nonEmpty t); reflexivity.
Qed.

Lemma onChunk_afterLines teams buffer st chunk :
  let ls := terminated (fst (splitLines (buffer ++ chunk)%string)) in
  fst (onChunk teams (buffer, st) chunk) = snd (splitLines (buffer ++ chunk)%string)
  /\ handled (snd (onChunk teams (buffer, st) chunk)) = handled (afterLines teams ls st)
  /\ written (snd (onChunk teams (buffer, st) chunk)) = written (afterLines teams ls st)
  /\ pendingInjection (snd (onChunk teams (buffer, st) chunk)) = false.
Proof.
  unfold onChunk, afterLines. rewrite drain_splitLines. simpl.
  destruct (pendingInjection (handleAll teams _ st)) eqn:E; simpl; auto.
Qed.

Lemma flush_afterLines teams buffer st :
  flush teams (buffer, st) = afterLines teams (unterminated buffer) st.
Proof.
  unfold flush, afterLines, unterminated.
  destruct (JS.nonEmpty buffer); reflexivity.
Qed.

Lemma feed_snoc teams input chunk :
  feed teams (input ++ [chunk]) = onChunk teams (feed teams input) chunk.
Proof. unfold feed. rewrite fold_left_app. reflexivity. Qed.

Lemma feed_pending teams input : pendingInjection (snd (feed teams input)) = false.
Proof.
  destruct input as [|c cs] using rev_ind; [reflexivity|].
  rewrite feed_snoc. destruct (feed teams cs) as [buffer st].
  apply onChunk_afterLines.
Qed.

Lemma firstn_succ_snoc {A} (l : list A) n d :
  n < List.length l -> firstn (S n) l = firstn n l ++ [nth n l d].
Proof.
  revert n. induction l as [|x l IH]; intros n H; simpl in *; [lia|].
  destruct n as [|n]; [reflexivity|].
  simpl. f_equal. apply IH. lia.
Qed.

(** Every step is [afterLines] on the lines it delivers, from a state in
    which no injection is pending. *)
Lemma stateAfter_step teams input n :
  n <= List.length input ->
  handled (stateAfter teams input (S n)) =
    handled (afterLines teams (stepLines teams input n) (stateAfter teams input n))
  /\ written (stateAfter teams input (S n)) =
    written (afterLines teams (stepLines teams input n) (stateAfter teams input n))
  /\ pendingInjection (stateAfter teams input n) = false.
Proof.
  intros Hn. unfold stateAfter, stepLines.
  destruct (Nat.leb_spec n (List.length input)) as [_|]; [|lia].
  destruct (Nat.ltb_spec n (List.length input)) as [Hlt|Hge].
  - destruct (Nat.leb_spec (S n) (List.length input)) as [_|]; [|lia].
    rewrite (firstn_succ_snoc input n EmptyString Hlt), feed_snoc.
    pose proof (feed_pending teams (firstn n input)) as Hp.
    destruct (feed teams (firstn n input)) as [buffer st]. simpl in *.
    pose proof (onChunk_afterLines teams buffer st (nth n input EmptyString)) as H.
    simpl in H. tauto.
  - destruct (Nat.leb_spec (S n) (List.length input)) as [|_]; [lia|].
    assert (n = List.length input) as -> by lia. rewrite firstn_all.
    pose proof (feed_pending teams input) as Hp.
    destruct (feed teams input) as [buffer st].
    rewrite flush_afterLines. simpl in *. tauto.
Qed.

Lemma stateAfter_delivers teams input n :
  n <= List.length input ->
  handled (stateAfter teams input (S n)) =
    handled (stateAfter teams input n) ++ stepLines teams input n.
Proof.
  intros Hn. destruct (stateAfter_step teams input n Hn) as [Hh _].
  rewrite Hh. apply afterLines_handled.
Qed.

Lemma renderAll_app l1 l2 : renderAll (l1 ++ l2) = renderAll l1 ++ renderAll l2.
Proof. apply map_app. Qed.

(** A step whose last marker is [m] writes its lines and then the commands
    due, whatever was written before. *)
Lemma step_marker teams input n l1 m l2 :
  n <= List.length input ->
  handled (stateAfter teams input (S n)) =
    handled (stateAfter teams input n) ++ l1 ++ m :: l2 ->
  isStart m = true -> existsb isStart l2 = false ->
  written (stateAfter teams input (S n)) =
    written (stateAfter teams input n) ++ renderAll (l1 ++ m :: l2)
      ++ commandsDue teams l2.
Proof.
  intros Hn Hd Hm Hq.
  rewrite (stateAfter_delivers teams input n Hn) in Hd.
  apply app_inv_head in Hd.
  destruct (stateAfter_step teams input n Hn) as (_ & Hw & _).
  rewrite Hw, Hd. apply afterLines_marker; assumption.
Qed.

Lemma linesBetween_succ teams input n k :
  linesBetween teams input n (S k) =
    linesBetween teams input n k ++ stepLines teams input (n + k).
Proof.
  unfold linesBetween. rewrite seq_S, flat_map_app. simpl.
  now rewrite app_nil_r.
Qed.

Lemma handled_between teams input n k :
  n + k <= S (List.length input) ->
  handled (stateAfter teams input (n + k)) =
    handled (stateAfter teams input n) ++ linesBetween teams input n k.
Proof.
  induction k as [|k IH]; intros Hk.
  - rewrite Nat.add_0_r. unfold linesBetween. simpl. now rewrite app_nil_r.
  - replace (n + S k) with (S (n + k)) by lia.
    rewrite stateAfter_delivers by lia. rewrite IH by lia.
    rewrite linesBetween_succ, app_assoc. reflexivity.
Qed.

Lemma written_between_quiet teams input n k :
  n + k <= S (List.length input) ->
  existsb isStart (linesBetween teams input n k) = false ->
  written (stateAfter teams input (n + k)) =
    written (stateAfter teams input n) ++ renderAll (linesBetween teams input n k).
Proof.
  induction k as [|k IH]; intros Hk Hq.
  - rewrite Nat.add_0_r. unfold linesBetween. simpl. now rewrite app_nil_r.
  - rewrite linesBetween_succ, existsb_app in Hq.
    apply orb_false_elim in Hq. destruct Hq as [Hq1 Hq2].
    replace (n + S k) with (S (n + k)) by lia.
    assert (n + k <= List.length input) as Hle by lia.
    destruct (stateAfter_step teams input (n + k) Hle) as (_ & Hw & Hp).
    rewrite Hw, (afterLines_quiet _ _ _ Hp Hq2), IH by (lia || assumption).
    rewrite linesBetween_succ, renderAll_app, app_assoc. reflexivity.
Qed.

(** Steps that deliver no marker write their lines and nothing else. *)
Lemma steps_quiet teams input n k more :
  n + k <= S (List.length input) ->
  handled (stateAfter teams input (n + k)) =
    handled (stateAfter teams input n) ++ more ->
  existsb isStart more = false ->
  written (stateAfter teams input (n + k)) =
    written (stateAfter teams input n) ++ renderAll more.
Proof.
  intros Hk Hd Hq. rewrite (handled_between teams input n k Hk) in Hd.
  apply app_inv_head in Hd. subst more.
  apply written_between_quiet; assumption.
Qed.

(** ** The line splitter over the whole text *)

(** Splitting does not depend on where the text is cut: the tail of the
    first part is carried into the second. *)
Lemma splitLines_app (s t : string) :
  splitLines (s ++ t)%string =
    (fst (splitLines s) ++ fst (splitLines (snd (splitLines s) ++ t)%string),
     snd (splitLines (snd (splitLines s) ++ t)%string)).
Proof.
  induction s as [|a s IH]; simpl.
  - destruct (splitLines t); reflexivity.
  - rewrite IH. destruct (splitLines s) as [ls tail]. simpl.
    destruct (Ascii.eqb a JS.LF) eqn:Ea; simpl; [reflexivity|].
    destruct ls as [|l ls]; simpl.
    + rewrite Ea. destruct (splitLines (tail ++ t)%string) as [[|l' ls'] tail'];
        reflexivity.
    + reflexivity.
Qed.

Lemma textOf_snoc input chunk :
  textOf (input ++ [chunk]) = (textOf input ++ chunk)%string.
Proof.
  induction input as [|c cs IH]; simpl.
  - apply append_nil_r.
  - rewrite IH, append_assoc. reflexivity.
Qed.

Lemma feed_lines teams input :
  fst (feed teams input) = snd (splitLines (textOf input))
  /\ handled (snd (feed teams input)) = terminated (fst (splitLines (textOf input))).
Proof.
  induction input as [|c cs IH] using rev_ind; [split; reflexivity|].
  rewrite feed_snoc, textOf_snoc, splitLines_app.
  destruct (feed teams cs) as [buffer st]. destruct IH as [Hb0 Hh].
  cbn [fst snd] in Hb0, Hh. subst buffer.
  pose proof (onChunk_afterLines teams (snd (splitLines (textOf cs))) st c)
    as (Hb & Hl & _).
  rewrite Hb, Hl, afterLines_handled, Hh. cbn [fst snd].
  unfold terminated. rewrite map_app. split; reflexivity.
Qed.

(** All in all [handleLine] sees the lines of the text, whatever the chunks. *)
Lemma handled_all teams input :
  handled (pipeInputWithTeams teams input) = linesOf (textOf input).
Proof.
  unfold pipeInputWithTeams, streamWriteEnd. cbn [handled].
  pose proof (feed_lines teams input) as [Hb Hh].
  destruct (feed teams input) as [buffer st]. cbn [fst snd] in Hb, Hh.
  rewrite flush_afterLines, afterLines_handled, Hh, Hb. reflexivity.
Qed.

Lemma wire_app c1 c2 : wire (c1 ++ c2) = (wire c1 ++ wire c2)%string.
Proof.
  induction c1 as [|[chunk|] c1 IH]; simpl; [reflexivity| |assumption].
  rewrite IH, append_assoc. reflexivity.
Qed.

Lemma splitLines_wire (s : string) :
  wire (renderAll (linesOf s)) = s.
Proof.
  unfold linesOf. rewrite renderAll_app, wire_app.
  induction s as [|a s IH]; simpl; [reflexivity|].
  destruct (splitLines s) as [ls tail]. simpl in *.
  destruct (Ascii.eqb a JS.LF) eqn:Ea.
  - apply Ascii.eqb_eq in Ea. subst a. simpl. rewrite IH. reflexivity.
  - destruct ls as [|l ls]; simpl in *.
    + unfold unterminated in *. simpl.
      destruct tail; simpl in *; rewrite <- IH; reflexivity.
    + unfold renderLine in *. simpl in *. rewrite <- IH. reflexivity.
Qed.

Lemma splitLines_no_newline (s : string) :
  Forall (fun l => JS.indexOf l JS.LF = None) (fst (splitLines s))
  /\ JS.indexOf (snd (splitLines s)) JS.LF = None.
Proof.
  induction s as [|a s [IHl IHt]]; simpl; [split; [constructor|reflexivity]|].
  destruct (splitLines s) as [ls tail]. simpl in *.
  destruct (Ascii.eqb a JS.LF) eqn:Ea; simpl.
  - split; [constructor; [reflexivity|assumption]|assumption].
  - destruct ls as [|l ls]; simpl.
    + rewrite Ea, IHt. split; [constructor|reflexivity].
    + inversion IHl as [|? ? Hl Hls]; subst. split; [|assumption].
      constructor; [|assumption]. simpl. rewrite Ea, Hl. reflexivity.
Qed.

Lemma linesOf_no_newline (s : string) :
  Forall (fun lb => JS.indexOf (fst lb) JS.LF = None) (linesOf s).
Proof.
  destruct (splitLines_no_newline s) as [Hl Ht]. unfold linesOf.
  apply Forall_app. split.
  - unfold terminated. rewrite Forall_map. exact Hl.
  - unfold unterminated. destruct (JS.nonEmpty _); repeat constructor. exact Ht.
Qed.

(** ** Forwarded lines and synthetic commands are different writes *)

Lemma newline_prefix l p x :
  (l ++ JS.str JS.LF = p ++ x)%string -> JS.indexOf p JS.LF = None ->
  exists y, l = (p ++ y)%string.
Proof.
  revert l. induction p as [|c p IH]; intros l Heq Hp; simpl in *.
  - exists l. reflexivity.
  - destruct (Ascii.eqb c JS.LF) eqn:Ec; [discriminate|].
    destruct (JS.indexOf p JS.LF) eqn:Ep; [discriminate|].
    destruct l as [|d l]; simpl in Heq.
    + inversion Heq; subst. rewrite Ascii.eqb_refl in Ec. discriminate.
    + inversion Heq; subst. destruct (IH l H1 eq_refl) as [y ->].
      exists y. reflexivity.
Qed.

Lemma render_startsWith l b p :
  JS.startsWith (renderLine l b) p = true -> JS.indexOf p JS.LF = None ->
  JS.startsWith l p = true.
Proof.
  intros H Hp. destruct b; simpl in H; [|assumption].
  apply startsWith_app in H. destruct H as [x Hx].
  apply startsWith_app. eapply newline_prefix; eassumption.
Qed.

Lemma render_not_command slot t lb :
  namesSlot slot lb = false ->
  Write (renderLine (fst lb) (snd lb)) <> Write (playerCommand slot t).
Proof.
  intros Hn Heq. inversion Heq as [Hr]. clear Heq.
  assert (JS.startsWith (renderLine (fst lb) (snd lb))
            (">player " ++ slotName slot ++ " ") = true) as Hs.
  { rewrite Hr. destruct slot; reflexivity. }
  apply render_startsWith in Hs; [|destruct slot; reflexivity].
  unfold namesSlot in Hn. congruence.
Qed.

Lemma occurrences_app c l1 l2 :
  occurrences c (l1 ++ l2) = occurrences c l1 + occurrences c l2.
Proof. apply count_occ_app. Qed.

Lemma occurrences_same c l : occurrences c (c :: l) = S (occurrences c l).
Proof. apply count_occ_cons_eq. reflexivity. Qed.

Lemma occurrences_other c x l : x <> c -> occurrences c (x :: l) = occurrences c l.
Proof. apply count_occ_cons_neq. Qed.

Lemma occurrences_nil c : occurrences c [] = 0.
Proof. reflexivity. Qed.

Lemma playerCommand_slots s1 s2 a b :
  s1 <> s2 -> Write (playerCommand s1 a) <> Write (playerCommand s2 b).
Proof.
  intros Hne Heq.
  assert (playerCommand s1 a = playerCommand s2 b) as Hc by congruence.
  clear Heq.
  assert (JS.startsWith (playerCommand s1 a) (">player " ++ slotName s2 ++ " ") = true)
    as Hs by (rewrite Hc; destruct s2; reflexivity).
  destruct s1, s2; try congruence;
    match type of Hs with
    | ?x = true => assert (x = false) by reflexivity
    end; congruence.
Qed.

Lemma WriteEnd_not_command slot t : WriteEnd <> Write (playerCommand slot t).
Proof. discriminate. Qed.

Lemma occurrences_forwarded slot t ls :
  existsb (namesSlot slot) ls = false ->
  occurrences (Write (playerCommand slot t)) (renderAll ls) = 0.
Proof.
  intros H. unfold occurrences. apply count_occ_not_In.
  unfold renderAll. rewrite in_map_iff. intros (lb & Heq & Hin).
  revert Heq. apply render_not_command.
  destruct (namesSlot slot lb) eqn:E; [|reflexivity].
  assert (existsb (namesSlot slot) ls = true); [|congruence].
  apply existsb_exists. eauto.
Qed.

Lemma ordinary_all ls :
  forallb ordinary ls = true ->
  existsb isStart ls = false
  /\ existsb (namesSlot p1) ls = false /\ existsb (namesSlot p2) ls = false.
Proof.
  induction ls as [|lb ls IH]; simpl; [auto|].
  intros H. apply andb_prop in H. destruct H as [Ho Hr].
  destruct (IH Hr) as (-> & -> & ->). unfold ordinary in Ho.
  destruct (isStart lb), (namesSlot p1 lb), (namesSlot p2 lb);
    try discriminate; auto.
Qed.

Lemma stateAfter_zero teams input : stateAfter teams input 0 = initialPipe teams.
Proof. reflexivity. Qed.

Lemma stateAfter_last teams input :
  stateAfter teams input (S (List.length input)) = flush teams (feed teams input).
Proof.
  unfold stateAfter.
  destruct (Nat.leb_spec (S (List.length input)) (List.length input)); [lia|reflexivity].
Qed.

Lemma pipe_stateAfter teams input :
  pipeInputWithTeams teams input =
    streamWriteEnd (stateAfter teams input (S (List.length input))).
Proof. rewrite stateAfter_last. reflexivity. Qed.

(** The step at which the first line is delivered. *)
Lemma first_delivery teams input k :
  handled (stateAfter teams input k) <> [] ->
  exists n, n < k /\ handled (stateAfter teams input n) = []
            /\ handled (stateAfter teams input (S n)) <> [].
Proof.
  induction k as [|k IH]; intros H.
  - rewrite stateAfter_zero in H. simpl in H. congruence.
  - destruct (handled (stateAfter teams input k)) as [|x xs] eqn:E.
    + exists k. split; [lia|]. split; assumption.
    + destruct IH as (n & Hn & H0 & H1); [discriminate|].
      exists n. split; [lia|]. split; assumption.
Qed.

(** C4. Line reassembly: whatever the chunking (empty chunks and cuts
    inside a line included), the (line, hadNewline) pairs handed to
    [handleLine] over the whole run, each rendered with a line feed exactly
    when the flag is set, concatenate to the original text; no line holds a
    line feed; and the pairs depend on the text alone, not on the chunks. *)
Theorem C4_line_reassembly (teams : Teams) (input : list string) :
  wire (renderAll (handled (pipeInputWithTeams teams input))) = textOf input
  /\ Forall (fun lb => JS.indexOf (fst lb) JS.LF = None)
            (handled (pipeInputWithTeams teams input))
  /\ handled (pipeInputWithTeams teams input) = linesOf (textOf input).
Proof.
  rewrite handled_all. split; [apply splitLines_wire|].
  split; [apply linesOf_no_newline|reflexivity].
Qed.

(** C1. Injection exactly once: with a team for both slots and a text whose
    first line is the session-start marker and whose other lines are neither
    markers nor explicit player commands, there is a step [n] (a chunk, or the
    flush at the end) before which nothing was delivered or written and which
    delivers the marker; right after the lines of that step the two synthetic
    commands are written, p1 then p2; the lines of later steps follow them;
    and each command occurs exactly once among all the writes. *)
Theorem C1_injection_exactly_once (a b : string) (input : list string)
    (m : string * bool) (rest : list (string * bool)) :
  JS.nonEmpty a = true -> JS.nonEmpty b = true ->
  linesOf (textOf input) = m :: rest ->
  isStart m = true ->
  forallb ordinary rest = true ->
  exists n same later,
    n <= List.length input
    /\ handled (stateAfter (bothTeams a b) input n) = []
    /\ written (stateAfter (bothTeams a b) input n) = []
    /\ handled (stateAfter (bothTeams a b) input (S n)) = m :: same
    /\ rest = same ++ later
    /\ written (stateAfter (bothTeams a b) input (S n)) =
         renderAll (m :: same)
           ++ [Write (playerCommand p1 a); Write (playerCommand p2 b)]
    /\ written (pipeInputWithTeams (bothTeams a b) input) =
         renderAll (m :: same)
           ++ [Write (playerCommand p1 a); Write (playerCommand p2 b)]
           ++ renderAll later ++ [WriteEnd]
    /\ occurrences (Write (playerCommand p1 a))
         (written (pipeInputWithTeams (bothTeams a b) input)) = 1
    /\ occurrences (Write (playerCommand p2 b))
         (written (pipeInputWithTeams (bothTeams a b) input)) = 1.
Proof.
  intros Ha Hb Hlines Hm Hord.
  set (teams := bothTeams a b).
  set (len := List.length input).
  assert (handled (stateAfter teams input (S len)) = m :: rest) as Hall.
  { rewrite <- Hlines, <- (handled_all teams input), pipe_stateAfter. reflexivity. }
  destruct (first_delivery teams input (S len)) as (n & Hn & H0 & H1);
    [rewrite Hall; discriminate|].
  assert (n <= len) as Hle by lia.
  pose proof (stateAfter_delivers teams input n Hle) as Hd.
  rewrite H0 in Hd. simpl in Hd.
  pose proof (handled_between teams input (S n) (len - n)) as Hb2.
  replace (S n + (len - n)) with (S len) in Hb2 by lia.
  specialize (Hb2 (le_n _)). rewrite Hall, Hd in Hb2.
  destruct (stepLines teams input n) as [|m' same] eqn:Es;
    [rewrite Hd in H1; congruence|].
  set (later := linesBetween teams input (S n) (len - n)) in *.
  simpl in Hb2. inversion Hb2 as [[Hm' Hrest]]. subst m'.
  rewrite Hrest, forallb_app in Hord. apply andb_prop in Hord.
  destruct Hord as [Hsame Hlater].
  apply ordinary_all in Hsame. destruct Hsame as (Hs0 & Hs1 & Hs2).
  apply ordinary_all in Hlater. destruct Hlater as (Hl0 & Hl1 & Hl2).
  assert (written (stateAfter teams input n) = []) as Hw0.
  { pose proof (handled_between teams input 0 n) as Hb0.
    pose proof (written_between_quiet teams input 0 n) as Hq0.
    simpl in Hb0, Hq0. rewrite H0 in Hb0. specialize (Hb0 ltac:(lia)).
    simpl in Hb0. rewrite <- Hb0 in Hq0. apply Hq0; [lia|reflexivity]. }
  assert (written (stateAfter teams input (S n)) =
            renderAll (m :: same)
              ++ [Write (playerCommand p1 a); Write (playerCommand p2 b)]) as Hw1.
  { rewrite (step_marker teams input n [] m same Hle); try assumption.
    - rewrite Hw0. simpl. do 2 f_equal. unfold commandsDue. simpl.
      rewrite Ha, Hb, Hs1, Hs2. reflexivity.
    - rewrite H0, Hd. reflexivity. }
  assert (written (pipeInputWithTeams teams input) =
            renderAll (m :: same)
              ++ [Write (playerCommand p1 a); Write (playerCommand p2 b)]
              ++ renderAll later ++ [WriteEnd]) as Hw2.
  { rewrite pipe_stateAfter. unfold streamWriteEnd. cbn [written].
    pose proof (steps_quiet teams input (S n) (len - n) later) as Hq.
    replace (S n + (len - n)) with (S len) in Hq by lia.
    fold len. rewrite Hq; [| lia | rewrite Hall, Hd, Hrest; reflexivity | assumption].
    rewrite Hw1, <- !app_assoc. reflexivity. }
  exists n, same, later. repeat split; try assumption.
  - rewrite Hw2, !occurrences_app.
    change (renderAll (m :: same)) with (renderAll ([m] ++ same)).
    rewrite renderAll_app, occurrences_app.
    rewrite !occurrences_forwarded;
      [| assumption | assumption
       | simpl; rewrite (isStart_not_namesSlot p1 m Hm); reflexivity].
    rewrite occurrences_same, !occurrences_other, occurrences_nil;
      [reflexivity | apply WriteEnd_not_command
       | apply playerCommand_slots; discriminate].
  - rewrite Hw2, !occurrences_app.
    change (renderAll (m :: same)) with (renderAll ([m] ++ same)).
    rewrite renderAll_app, occurrences_app.
    rewrite !occurrences_forwarded;
      [| assumption | assumption
       | simpl; rewrite (isStart_not_namesSlot p2 m Hm); reflexivity].
    rewrite (occurrences_other _ (Write (playerCommand p1 a)))
      by (apply playerCommand_slots; discriminate).
    rewrite occurrences_same, occurrences_other, occurrences_nil;
      [reflexivity | apply WriteEnd_not_command].
Qed.

Lemma C1_injection_exactly_once_witness :
  let input := [(">start" ++ JS.str JS.LF ++ "foo")%string;
                ("bar" ++ JS.str JS.LF)%string] in
  (JS.nonEmpty "A" = true /\ JS.nonEmpty "B" = true
   /\ linesOf (textOf input) = [(">start", true); ("foobar", true)])
  /\ occurrences (Write (playerCommand p1 "A"))
       (written (pipeInputWithTeams (bothTeams "A" "B") input)) = 1
  /\ occurrences (Write (playerCommand p2 "B"))
       (written (pipeInputWithTeams (bothTeams "A" "B") input)) = 1.
Proof.
  intros input. split; [repeat split|].
  destruct (C1_injection_exactly_once "A" "B" input (">start", true)
              [("foobar", true)] eq_refl eq_refl eq_refl eq_refl eq_refl)
    as (n & same & later & H).
  split; apply H.
Defined.

(** The counterexample to deference as stated: the controller names both
    slots behind the marker, and the p2 command is not written either. *)
Lemma C2_deference_counterexample : ~ deference_as_stated.
Proof.
  intros H.
  destruct (H "A" "B"
              [(">start" ++ JS.str JS.LF ++ ">player p1 x" ++ JS.str JS.LF
                  ++ ">player p2 y" ++ JS.str JS.LF)%string]
              0 [] (">start", true)
              [(">player p1 x", true); (">player p2 y", true)]
              eq_refl eq_refl (Nat.le_0_l _) eq_refl eq_refl eq_refl eq_refl)
    as [Hw _].
  vm_compute in Hw. discriminate Hw.
Qed.

(** C2 (amended). Injection deference: with a team for both slots, let a
    step deliver the lines [l1 ++ m :: l2] where [m] is the step's last
    marker, some line of [l2] begins with [>player p1 ] and none begins with
    [>player p2 ].  Then that step writes its lines followed by the p2
    command only, and the steps after it write nothing but their own lines
    for as long as they deliver no marker. *)
Theorem C2_injection_deference (a b : string) (input : list string) (n : nat)
    (l1 : list (string * bool)) (m : string * bool) (l2 : list (string * bool)) :
  JS.nonEmpty a = true -> JS.nonEmpty b = true ->
  n <= List.length input ->
  handled (stateAfter (bothTeams a b) input (S n)) =
    handled (stateAfter (bothTeams a b) input n) ++ l1 ++ m :: l2 ->
  isStart m = true -> existsb isStart l2 = false ->
  existsb (namesSlot p1) l2 = true ->
  existsb (namesSlot p2) l2 = false ->
  written (stateAfter (bothTeams a b) input (S n)) =
    written (stateAfter (bothTeams a b) input n) ++ renderAll (l1 ++ m :: l2)
      ++ [Write (playerCommand p2 b)]
  /\ forall k more,
       S n + k <= S (List.length input) ->
       handled (stateAfter (bothTeams a b) input (S n + k)) =
         handled (stateAfter (bothTeams a b) input (S n)) ++ more ->
       existsb isStart more = false ->
       written (stateAfter (bothTeams a b) input (S n + k)) =
         written (stateAfter (bothTeams a b) input (S n)) ++ renderAll more.
Proof.
  intros Ha Hb Hn Hd Hm Hq H1 H2. split.
  - rewrite (step_marker _ input n l1 m l2 Hn Hd Hm Hq).
    unfold commandsDue. simpl. rewrite Ha, Hb, H1, H2. reflexivity.
  - intros k more. apply steps_quiet.
Qed.

Lemma C2_injection_deference_witness :
  let input := [(">start" ++ JS.str JS.LF ++ ">player p1 x" ++ JS.str JS.LF)%string;
                (">p1 move 1" ++ JS.str JS.LF)%string] in
  written (stateAfter (bothTeams "A" "B") input 1) =
    [Write (">start" ++ JS.str JS.LF)%string;
     Write (">player p1 x" ++ JS.str JS.LF)%string;
     Write (playerCommand p2 "B")].
Proof.
  intros input.
  exact (proj1 (C2_injection_deference "A" "B" input 0 [] (">start", true)
                  [(">player p1 x", true)]
                  eq_refl eq_refl (Nat.le_0_l _) eq_refl eq_refl eq_refl
                  eq_refl eq_refl)).
Defined.

(** ** Counting the synthetic commands *)

Lemma markers_app l1 l2 : markers (l1 ++ l2) = markers l1 + markers l2.
Proof. unfold markers. rewrite filter_app, length_app. reflexivity. Qed.

Lemma markers_quiet ls : existsb isStart ls = false -> markers ls = 0.
Proof.
  unfold markers. induction ls as [|lb ls IH]; simpl; [reflexivity|].
  intros H. apply orb_false_elim in H. destruct H as [-> H]. auto.
Qed.

(** A list of lines either holds no marker or splits at its last one. *)
Lemma last_marker ls :
  existsb isStart ls = false
  \/ exists l1 m l2, ls = l1 ++ m :: l2 /\ isStart m = true
                     /\ existsb isStart l2 = false.
Proof.
  induction ls as [|lb ls [IH|(l1 & m & l2 & -> & Hm & Hq)]].
  - left. reflexivity.
  - destruct (isStart lb) eqn:E.
    + right. exists [], lb, ls. auto.
    + left. simpl. rewrite E, IH. reflexivity.
  - right. exists (lb :: l1), m, l2. auto.
Qed.

Lemma occurrences_commandsDue teams slot t after :
  team teams slot = Some t -> JS.nonEmpty t = true ->
  existsb (namesSlot slot) after = false ->
  occurrences (Write (playerCommand slot t)) (commandsDue teams after) = 1.
Proof.
  intros Ht Hne Hn. unfold commandsDue, PLAYER_SLOTS. cbn [flat_map].
  rewrite app_nil_r, occurrences_app.
  destruct slot; cbn [team] in *; rewrite Ht, Hne, Hn; cbn [negb andb].
  - rewrite occurrences_same, occurrences_nil.
    destruct (team_p2 teams) as [u|]; [|reflexivity].
    destruct (JS.nonEmpty u && negb (existsb (namesSlot p2) after)); [|reflexivity].
    rewrite occurrences_other by (apply playerCommand_slots; discriminate).
    reflexivity.
  - rewrite occurrences_same, occurrences_nil.
    destruct (team_p1 teams) as [u|]; [|rewrite occurrences_nil; reflexivity].
    destruct (JS.nonEmpty u && negb (existsb (namesSlot p1) after));
      [|rewrite occurrences_nil; reflexivity].
    rewrite occurrences_other by (apply playerCommand_slots; discriminate).
    reflexivity.
Qed.

Lemma occurrences_upto teams input slot t k :
  team teams slot = Some t -> JS.nonEmpty t = true ->
  (forall n, n <= List.length input -> markers (stepLines teams input n) <= 1) ->
  existsb (namesSlot slot) (handled (stateAfter teams input (S (List.length input))))
    = false ->
  k <= S (List.length input) ->
  occurrences (Write (playerCommand slot t)) (written (stateAfter teams input k))
    = markers (handled (stateAfter teams input k)).
Proof.
  intros Ht Hne Hone Hnames. induction k as [|n IH]; intros Hk.
  - reflexivity.
  - assert (n <= List.length input) as Hn by lia.
    assert (existsb (namesSlot slot) (stepLines teams input n) = false) as Hd.
    { pose proof (handled_between teams input (S n) (List.length input - n)) as Hb.
      replace (S n + (List.length input - n)) with (S (List.length input)) in Hb by lia.
      rewrite (Hb (le_n _)), (stateAfter_delivers _ _ _ Hn) in Hnames.
      rewrite !existsb_app in Hnames.
      apply orb_false_elim in Hnames. destruct Hnames as [Hx _].
      apply orb_false_elim in Hx. apply Hx. }
    destruct (stateAfter_step teams input n Hn) as (_ & Hw & Hp).
    rewrite Hw, (stateAfter_delivers _ _ _ Hn), markers_app, <- IH by lia.
    specialize (Hone n Hn).
    destruct (last_marker (stepLines teams input n))
      as [Hq|(l1 & m & l2 & Hsplit & Hm & Hq)].
    + rewrite (afterLines_quiet _ _ _ Hp Hq), occurrences_app.
      rewrite (occurrences_forwarded _ _ _ Hd), (markers_quiet _ Hq). reflexivity.
    + rewrite Hsplit in *.
      rewrite (afterLines_marker _ _ _ _ _ Hm Hq), !occurrences_app.
      rewrite (occurrences_forwarded _ _ _ Hd).
      rewrite existsb_app in Hd. apply orb_false_elim in Hd.
      destruct Hd as [_ Hd]. simpl in Hd. apply orb_false_elim in Hd.
      rewrite (occurrences_commandsDue _ _ _ _ Ht Hne (proj2 Hd)).
      rewrite markers_app in *. change (m :: l2) with ([m] ++ l2) in *.
      rewrite markers_app in *. rewrite (markers_quiet _ Hq) in *.
      unfold markers at 2 in Hone. unfold markers at 2. simpl in *.
      rewrite Hm in *. simpl in *. lia.
Qed.

(** The counterexample to re-arming as stated: two markers that arrive in
    one chunk share a single injection. *)
Lemma C3_rearming_counterexample : ~ rearming_as_stated.
Proof.
  intros H.
  specialize (H (bothTeams "A" "B")
                [(">start" ++ JS.str JS.LF ++ ">start" ++ JS.str JS.LF)%string]
                p1 "A" (le_n 2) eq_refl eq_refl).
  vm_compute in H. discriminate H.
Qed.

(** C3 (amended). Multi-session re-arming: every step that delivers a marker
    injects again, whatever was injected before: it writes its lines and then
    one synthetic command for each slot that has a team and is not named
    behind the step's last marker.  Hence, when no step delivers two markers
    and no line of the text names the slot, a slot that has a team gets
    exactly one synthetic command per marker. *)
Theorem C3_rearming_per_step (teams : Teams) (input : list string) :
  (forall n l1 m l2,
     n <= List.length input ->
     stepLines teams input n = l1 ++ m :: l2 ->
     isStart m = true -> existsb isStart l2 = false ->
     written (stateAfter teams input (S n)) =
       written (stateAfter teams input n) ++ renderAll (l1 ++ m :: l2)
         ++ commandsDue teams l2)
  /\ (forall slot t,
        team teams slot = Some t -> JS.nonEmpty t = true ->
        (forall n, n <= List.length input ->
                   markers (stepLines teams input n) <= 1) ->
        existsb (namesSlot slot) (linesOf (textOf input)) = false ->
        occurrences (Write (playerCommand slot t))
                    (written (pipeInputWithTeams teams input))
          = markers (linesOf (textOf input))).
Proof.
  split.
  - intros n l1 m l2 Hn Hd Hm Hq.
    apply step_marker; try assumption.
    rewrite (stateAfter_delivers _ _ _ Hn), Hd. reflexivity.
  - intros slot t Ht Hne Hone Hnames.
    rewrite <- (handled_all teams input) in *.
    rewrite pipe_stateAfter in *. unfold streamWriteEnd in *. cbn [written handled] in *.
    rewrite occurrences_app.
    rewrite (occurrences_upto teams input slot t _ Ht Hne Hone Hnames (le_n _)).
    rewrite occurrences_other, occurrences_nil by apply WriteEnd_not_command.
    lia.
Qed.

Lemma C3_rearming_per_step_witness :
  let input := [(">start" ++ JS.str JS.LF)%string; (">start" ++ JS.str JS.LF)%string] in
  occurrences (Write (playerCommand p1 "A"))
              (written (pipeInputWithTeams (bothTeams "A" "B") input)) = 2.
Proof.
  intros input.
  apply (proj2 (C3_rearming_per_step (bothTeams "A" "B") input) p1 "A"%string
               eq_refl eq_refl).
  - intros [|[|[|n]]] Hn; vm_compute; lia.
  - reflexivity.
Defined.

Lemma playerCommand_text t :
  playerCommand p1 t =
    (">player p1 {" ++ JS.str JS.DQUOTE ++ "team" ++ JS.str JS.DQUOTE ++ ":"
       ++ JS.quoteJSONString t ++ "}" ++ JS.str JS.LF)%string
  /\ playerCommand p2 t =
       (">player p2 {" ++ JS.str JS.DQUOTE ++ "team" ++ JS.str JS.DQUOTE ++ ":"
          ++ JS.quoteJSONString t ++ "}" ++ JS.str JS.LF)%string.
Proof.
  unfold playerCommand, teamJSON. cbn [slotName].
  change (JS.quoteJSONString "team")
    with (JS.str JS.DQUOTE ++ "team" ++ JS.str JS.DQUOTE)%string.
  cbn [append JS.str]. rewrite !append_assoc. cbn [append]. split; reflexivity.
Qed.

(** C10. A marker as the unterminated last line: when the text ends with a
    non-empty line without terminator that begins with [>start], the run
    writes, after everything written while the chunks were read, that line
    as it is (it holds no line feed and none is added), then at once the
    synthetic commands of the slots that have a team (p1 first), then ends
    the stream; on the wire the first command follows the line's last
    character directly.  The command of a slot is the text [>player], a
    space, the slot, a space, the JSON object with the one key [team] and
    the supplied team as a JSON string, and a line feed.  No injection is
    left pending by the chunks, so this is the one way an injection can be
    due at the end of the stream. *)
Theorem C10_trailing_marker (teams : Teams) (input : list string) (tail : string) :
  snd (splitLines (textOf input)) = tail ->
  JS.nonEmpty tail = true ->
  JS.startsWith tail ">start" = true ->
  written (pipeInputWithTeams teams input) =
    written (snd (feed teams input)) ++ [Write tail] ++ commandsDue teams []
      ++ [WriteEnd]
  /\ JS.indexOf tail JS.LF = None
  /\ wire (written (pipeInputWithTeams teams input)) =
       (wire (written (snd (feed teams input))) ++ tail
          ++ wire (commandsDue teams []))%string
  /\ (forall t, team teams p1 = Some t -> JS.nonEmpty t = true ->
        exists others,
          commandsDue teams [] = Write (playerCommand p1 t) :: others)
  /\ pendingInjection (snd (feed teams input)) = false
  /\ commandsDue teams [] =
       match team_p1 teams with
       | Some t =>
           if JS.nonEmpty t
           then [Write (">player p1 {" ++ JS.str JS.DQUOTE ++ "team"
                          ++ JS.str JS.DQUOTE ++ ":" ++ JS.quoteJSONString t ++ "}"
                          ++ JS.str JS.LF)%string]
           else []
       | None => []
       end
       ++ match team_p2 teams with
          | Some t =>
              if JS.nonEmpty t
              then [Write (">player p2 {" ++ JS.str JS.DQUOTE ++ "team"
                             ++ JS.str JS.DQUOTE ++ ":" ++ JS.quoteJSONString t ++ "}"
                             ++ JS.str JS.LF)%string]
              else []
          | None => []
          end
  /\ wire (written (pipeInputWithTeams teams input)) =
       (wire (written (snd (feed teams input))) ++ tail
          ++ match team_p1 teams with
             | Some t =>
                 if JS.nonEmpty t
                 then ">player p1 {" ++ JS.str JS.DQUOTE ++ "team"
                        ++ JS.str JS.DQUOTE ++ ":" ++ JS.quoteJSONString t ++ "}"
                        ++ JS.str JS.LF
                 else EmptyString
             | None => EmptyString
             end
          ++ match team_p2 teams with
             | Some t =>
                 if JS.nonEmpty t
                 then ">player p2 {" ++ JS.str JS.DQUOTE ++ "team"
                        ++ JS.str JS.DQUOTE ++ ":" ++ JS.quoteJSONString t ++ "}"
                        ++ JS.str JS.LF
                 else EmptyString
             | None => EmptyString
             end)%string.
Proof.
  intros Htail Hne Hstart.
  assert (written (pipeInputWithTeams teams input) =
            written (snd (feed teams input)) ++ [Write tail]
              ++ commandsDue teams [] ++ [WriteEnd]) as Hw.
  { unfold pipeInputWithTeams, streamWriteEnd. cbn [written].
    pose proof (feed_lines teams input) as [Hb _].
    destruct (feed teams input) as [buffer st]. cbn [fst snd] in *.
    rewrite Htail in Hb. subst buffer.
    rewrite flush_afterLines. unfold unterminated. rewrite Hne.
    pose proof (afterLines_marker teams [] (tail, false) [] st Hstart eq_refl) as Ha.
    cbn [app] in Ha. rewrite Ha. unfold renderAll. cbn [map fst snd renderLine app].
    rewrite <- !app_assoc. reflexivity. }
  assert (wire (written (pipeInputWithTeams teams input)) =
            (wire (written (snd (feed teams input))) ++ tail
               ++ wire (commandsDue teams []))%string) as Hwire.
  { rewrite Hw, !wire_app. simpl. rewrite !append_nil_r. reflexivity. }
  split; [exact Hw|]. split; [|split; [exact Hwire|split; [|split; [apply feed_pending|]]]].
  - rewrite <- Htail. apply splitLines_no_newline.
  - intros t Ht Hnt. unfold commandsDue, PLAYER_SLOTS. cbn [flat_map].
    rewrite Ht, Hnt. cbn [existsb negb andb app]. eexists. reflexivity.
  - split.
    + unfold commandsDue, PLAYER_SLOTS. cbn [flat_map team existsb negb].
      rewrite app_nil_r.
      destruct (team_p1 teams) as [t1|], (team_p2 teams) as [t2|];
        try destruct (JS.nonEmpty t1); try destruct (JS.nonEmpty t2);
        cbn [andb]; try rewrite (proj1 (playerCommand_text t1));
        try rewrite (proj2 (playerCommand_text t2)); reflexivity.
    + rewrite Hwire. f_equal. f_equal.
      unfold commandsDue, PLAYER_SLOTS. cbn [flat_map team existsb negb].
      rewrite app_nil_r.
      destruct (team_p1 teams) as [t1|], (team_p2 teams) as [t2|];
        try destruct (JS.nonEmpty t1); try destruct (JS.nonEmpty t2);
        cbn [andb app wire]; try rewrite (proj1 (playerCommand_text t1));
        try rewrite (proj2 (playerCommand_text t2));
        rewrite ?append_nil_r, ?append_assoc; cbn [append]; reflexivity.
Qed.

Lemma C10_trailing_marker_witness :
  let input := [("x" ++ JS.str JS.LF ++ ">st")%string; "art"] in
  written (pipeInputWithTeams (bothTeams "A" "B") input) =
    [Write ("x" ++ JS.str JS.LF)%string; Write ">start";
     Write (">player p1 {" ++ JS.str JS.DQUOTE ++ "team" ++ JS.str JS.DQUOTE ++ ":"
              ++ JS.str JS.DQUOTE ++ "A" ++ JS.str JS.DQUOTE ++ "}" ++ JS.str JS.LF)%string;
     Write (">player p2 {" ++ JS.str JS.DQUOTE ++ "team" ++ JS.str JS.DQUOTE ++ ":"
              ++ JS.str JS.DQUOTE ++ "B" ++ JS.str JS.DQUOTE ++ "}" ++ JS.str JS.LF)%string;
     WriteEnd]
  /\ wire (written (pipeInputWithTeams (bothTeams "A" "B") input)) =
       ("x" ++ JS.str JS.LF ++ ">start>player p1 {" ++ JS.str JS.DQUOTE ++ "team"
          ++ JS.str JS.DQUOTE ++ ":" ++ JS.str JS.DQUOTE ++ "A" ++ JS.str JS.DQUOTE
          ++ "}" ++ JS.str JS.LF ++ ">player p2 {" ++ JS.str JS.DQUOTE ++ "team"
          ++ JS.str JS.DQUOTE ++ ":" ++ JS.str JS.DQUOTE ++ "B" ++ JS.str JS.DQUOTE
          ++ "}" ++ JS.str JS.LF)%string.
Proof.
  intros input.
  destruct (C10_trailing_marker (bothTeams "A" "B") input ">start"
              eq_refl eq_refl eq_refl) as (Hw & _ & _ & _ & _ & Hc & Hwire).
  split.
  - rewrite Hw, Hc. reflexivity.
  - rewrite Hwire. reflexivity.
Defined.

(** ** The formatter *)

Import JsonLogFormatter.

Lemma format_discarded now this message :
  negb (JS.nonEmpty (JS.trim message)) || String.eqb (JS.trim message) "|" = true ->
  format now this message = (this, Returned None).
Proof. intros H. unfold format. rewrite H. reflexivity. Qed.

(** [format] on a line that is kept: the two updates, then the record or
    the exception. *)
Lemma format_kept now this message :
  negb (JS.nonEmpty (JS.trim message)) || String.eqb (JS.trim message) "|" = false ->
  let trimmed := JS.trim message in
  let this' :=
    mkState
      (match extractTurn trimmed with Some v => Some v | None => currentTurn this end)
      (match extractTimestamp trimmed with
       | Some v => Some v
       | None => battleTimestamp this
       end) in
  format now this message =
    (this',
     match stampOf now (battleTimestamp this') with
     | Some iso =>
         Returned (Some (mkEntry trimmed iso (currentTurn this') (extractPlayer trimmed)))
     | None => RangeError
     end).
Proof.
  intros H. unfold format. rewrite H. cbn zeta.
  destruct this as [ct bt].
  destruct (extractTimestamp (JS.trim message)) as [ts|];
    destruct (extractTurn (JS.trim message)) as [tn|]; cbn [currentTurn battleTimestamp];
    unfold stampOf;
    match goal with
    | |- context [match ?o with Some _ => JS.toISOString _ | None => _ end] =>
        destruct o
    | _ => idtac
    end;
    match goal with
    | |- context [JS.toISOString ?d] => destruct (JS.toISOString d)
    end; reflexivity.
Qed.

(** What one call of [format] does to the carried context. *)
Lemma format_context now this message :
  let this' := fst (format now this message) in
  (extractTurn (JS.trim message) = None -> currentTurn this' = currentTurn this)
  /\ (extractTimestamp (JS.trim message) = None ->
      battleTimestamp this' = battleTimestamp this)
  /\ (currentTurn this <> None -> currentTurn this' <> None)
  /\ (battleTimestamp this <> None -> battleTimestamp this' <> None)
  /\ (forall e, snd (format now this message) = Returned (Some e) ->
        turn e = currentTurn this'
        /\ Some (timestamp e) = stampOf now (battleTimestamp this')).
Proof.
  destruct (negb (JS.nonEmpty (JS.trim message)) || String.eqb (JS.trim message) "|")
    eqn:Hd.
  - rewrite (format_discarded _ _ _ Hd). cbn [fst snd].
    repeat split; auto; discriminate.
  - rewrite (format_kept now this message Hd). cbn [fst snd currentTurn battleTimestamp].
    split; [intros ->; reflexivity|]. split; [intros ->; reflexivity|].
    split; [destruct (extractTurn _); [discriminate|auto]|].
    split; [destruct (extractTimestamp _); [discriminate|auto]|].
    intros e He.
    destruct (stampOf now _) as [iso|] eqn:Hs; [|discriminate].
    inversion He; subst e. cbn [turn timestamp]. auto.
Qed.

Lemma formatAll_context this calls :
  (currentTurn this <> None -> currentTurn (fst (formatAll this calls)) <> None)
  /\ (battleTimestamp this <> None ->
      battleTimestamp (fst (formatAll this calls)) <> None).
Proof.
  revert this. induction calls as [|[now message] calls IH]; intros this.
  - split; auto.
  - cbn [formatAll].
    pose proof (format_context now this message) as (_ & _ & Ht & Hb & _).
    destruct (format now this message) as [this' o]. cbn [fst] in Ht, Hb.
    specialize (IH this'). destruct (formatAll this' calls) as [final os].
    cbn [fst] in *. split; intros H; [apply IH, Ht, H | apply IH, Hb, H].
Qed.

(** C5. Carry-forward: a fresh formatter fed [|t:|1000], [|turn|5] and
    [hello p2 general] returns three records, the first without turn and
    stamped 1000 seconds after the epoch, the second with the same stamp and
    turn 5, the third with the same stamp, turn 5 and player p2 (whatever
    the wall clock, and also when the lines come through [pipeJsonOutput]).
    In general a call of [format] leaves the stored turn and time stamp as
    they are unless the line sets them, never clears them, over any number
    of calls, and a record carries the stored values. *)
Theorem C5_carry_forward :
  (forall n1 n2 n3,
     formatAll fresh [(n1, "|t:|1000"); (n2, "|turn|5"); (n3, "hello p2 general")]
     = (mkState (Some (JS.ofZ 5)) (Some (JS.ofZ 1000)),
        [Returned (Some (mkEntry "|t:|1000" "1970-01-01T00:16:40.000Z" None None));
         Returned (Some (mkEntry "|turn|5" "1970-01-01T00:16:40.000Z"
                                 (Some (JS.ofZ 5)) None));
         Returned (Some (mkEntry "hello p2 general" "1970-01-01T00:16:40.000Z"
                                 (Some (JS.ofZ 5)) (Some "p2")))]))
  /\ (forall clock,
        entriesOf (pipeJsonOutput clock
                     [("|t:|1000" ++ JS.str JS.LF ++ "|turn|5" ++ JS.str JS.LF
                         ++ "hello p2 general" ++ JS.str JS.LF)%string])
        = [mkEntry "|t:|1000" "1970-01-01T00:16:40.000Z" None None;
           mkEntry "|turn|5" "1970-01-01T00:16:40.000Z" (Some (JS.ofZ 5)) None;
           mkEntry "hello p2 general" "1970-01-01T00:16:40.000Z"
                   (Some (JS.ofZ 5)) (Some "p2")])
  /\ (forall now this message,
        let this' := fst (format now this message) in
        (extractTurn (JS.trim message) = None -> currentTurn this' = currentTurn this)
        /\ (extractTimestamp (JS.trim message) = None ->
            battleTimestamp this' = battleTimestamp this)
        /\ (currentTurn this <> None -> currentTurn this' <> None)
        /\ (battleTimestamp this <> None -> battleTimestamp this' <> None)
        /\ (forall e, snd (format now this message) = Returned (Some e) ->
              turn e = currentTurn this'
              /\ Some (timestamp e) = stampOf now (battleTimestamp this')))
  /\ (forall this calls,
        (currentTurn this <> None ->
         currentTurn (fst (formatAll this calls)) <> None)
        /\ (battleTimestamp this <> None ->
            battleTimestamp (fst (formatAll this calls)) <> None)).
Proof.
  split; [intros; vm_compute; reflexivity|].
  split; [intros; vm_compute; reflexivity|].
  split; [apply format_context | apply formatAll_context].
Qed.

Lemma C5_carry_forward_witness :
  currentTurn (fst (format 0 (mkState (Some (JS.ofZ 5)) None) "|j|")) <> None.
Proof.
  destruct C5_carry_forward as (_ & _ & H & _).
  destruct (H 0%Z (mkState (Some (JS.ofZ 5)) None) "|j|") as (_ & _ & Ht & _).
  apply Ht. discriminate.
Defined.

(** While [format] returns, a stored time stamp is one that [toISOString]
    accepts. *)
Lemma reachable_stamp this :
  reachable this ->
  forall v, battleTimestamp this = Some v ->
            exists iso, stampOf 0 (Some v) = Some iso.
Proof.
  induction 1 as [|now this message this' entry Hr IH Hf]; intros v Hv.
  - discriminate.
  - destruct (negb (JS.nonEmpty (JS.trim message))
              || String.eqb (JS.trim message) "|") eqn:Hd.
    + rewrite (format_discarded _ _ _ Hd) in Hf. inversion Hf; subst. eauto.
    + rewrite (format_kept now this message Hd) in Hf. cbv zeta in Hf.
      set (st := mkState _ _) in Hf. injection Hf as Hs Ho. subst this' st.
      cbn [battleTimestamp] in Hv. rewrite Hv in Ho. destruct (stampOf now (Some v)) as [iso|] eqn:E;
        [|discriminate]. exists iso. exact E.
Qed.

Lemma timestamp_line_kept trimmed :
  JS.startsWith trimmed "|t:|" = true ->
  negb (JS.nonEmpty trimmed) || String.eqb trimmed "|" = false
  /\ extractTurn trimmed = None.
Proof.
  intros H. apply startsWith_app in H. destruct H as [x ->]. split; [reflexivity|].
  unfold extractTurn. cbn [JS.startsWith String.prefix negb].
  replace (JS.split ("|t:|" ++ x) "|") with (""%string :: "t:"%string :: JS.split x "|").
  - cbn [nth]. destruct (List.length _ <? 3)%nat; reflexivity.
  - cbn. destruct (JS.split x "|"); reflexivity.
Qed.

(** C6. Idempotent non-update: for a formatter that has returned from every
    earlier call, a line whose trimmed text begins with [|t:|] and whose
    remainder [Number] does not turn into a finite number (such as
    [|t:|notanumber]) leaves the stored time stamp (and turn) as they were
    and still returns a record, stamped from the stored seconds if there are
    any and from the wall clock otherwise. *)
Theorem C6_malformed_timestamp (now : Z) (this : State) (message : string) :
  reachable this ->
  JS.startsWith (JS.trim message) "|t:|" = true ->
  JS.isFinite (JS.Number (JS.sliceFrom (JS.trim message) 4)) = false ->
  exists this' e,
    format now this message = (this', Returned (Some e))
    /\ battleTimestamp this' = battleTimestamp this
    /\ currentTurn this' = currentTurn this
    /\ JsonLogFormatter.message e = JS.trim message
    /\ Some (timestamp e) = stampOf now (battleTimestamp this)
    /\ turn e = currentTurn this.
Proof.
  intros Hr Hp Hn.
  destruct (timestamp_line_kept _ Hp) as [Hd Ht].
  assert (extractTimestamp (JS.trim message) = None) as Hts.
  { unfold extractTimestamp. rewrite Hp, Hn. reflexivity. }
  rewrite (format_kept now this message Hd). cbv zeta. rewrite Ht, Hts.
  cbn [battleTimestamp currentTurn].
  assert (exists iso, stampOf now (battleTimestamp this) = Some iso) as [iso Hi].
  { destruct (battleTimestamp this) as [v|] eqn:Hv.
    - destruct (reachable_stamp this Hr v Hv) as [iso Hi]. exists iso. exact Hi.
    - eexists. reflexivity. }
  rewrite Hi. do 2 eexists. split; [reflexivity|].
  cbn [battleTimestamp currentTurn JsonLogFormatter.message timestamp turn].
  destruct this; auto 6.
Qed.

Lemma C6_malformed_timestamp_witness :
  (reachable fresh
   /\ JS.startsWith (JS.trim "|t:|notanumber") "|t:|" = true
   /\ JS.isFinite (JS.Number (JS.sliceFrom (JS.trim "|t:|notanumber") 4)) = false)
  /\ exists this' e,
       format 1000 fresh "|t:|notanumber" = (this', Returned (Some e))
       /\ battleTimestamp this' = battleTimestamp fresh
       /\ currentTurn this' = currentTurn fresh
       /\ JsonLogFormatter.message e = JS.trim "|t:|notanumber"
       /\ Some (timestamp e) = stampOf 1000 (battleTimestamp fresh)
       /\ turn e = currentTurn fresh.
Proof.
  split; [repeat split; constructor|].
  apply (C6_malformed_timestamp 1000 fresh "|t:|notanumber");
    [constructor | reflexivity | reflexivity].
Defined.

(** ** The read loop *)

Lemma split_no_separator s c : JS.indexOf s c = None -> JS.split s c = [s].
Proof.
  induction s as [|a s IH]; simpl; [reflexivity|].
  destruct (Ascii.eqb a c); [discriminate|].
  destruct (JS.indexOf s c); [discriminate|].
  intros _. rewrite IH; reflexivity.
Qed.

Lemma split_terminated s c :
  JS.indexOf s c = None -> JS.split (s ++ JS.str c)%string c = [s; EmptyString].
Proof.
  induction s as [|a s IH]; simpl.
  - rewrite Ascii.eqb_refl. reflexivity.
  - destruct (Ascii.eqb a c); [discriminate|].
    destruct (JS.indexOf s c); [discriminate|].
    intros _. rewrite IH; reflexivity.
Qed.

Lemma indexOf_app_none s t c :
  JS.indexOf s c = None -> JS.indexOf t c = None ->
  JS.indexOf (s ++ t)%string c = None.
Proof.
  induction s as [|a s IH]; simpl; [auto|].
  destruct (Ascii.eqb a c); [discriminate|].
  destruct (JS.indexOf s c); [discriminate|].
  intros _ Ht. rewrite IH; auto.
Qed.

Lemma onRaw_empty clock flow : onRaw clock flow EmptyString = flow.
Proof. destruct flow; reflexivity. Qed.

Lemma fold_left_flat_map {A B C} (f : A -> C -> A) (g : B -> list C) l x :
  fold_left f (flat_map g l) x = fold_left (fun acc b => fold_left f (g b) acc) l x.
Proof.
  revert x. induction l as [|b l IH]; intros x; simpl; [reflexivity|].
  rewrite fold_left_app. apply IH.
Qed.

(** The counterexample to tail retention as stated: [|turn|5] cut after
    [|turn] gives two records. *)
Lemma C7_tail_retained_counterexample : ~ tail_retained_as_stated.
Proof.
  intros H.
  specialize (H (fun _ => 0%Z) "|turn" "|5" eq_refl).
  assert (List.length
            (entriesOf (pipeJsonOutput (fun _ => 0%Z)
                          [("|turn" ++ "|5" ++ JS.str JS.LF)%string])) = 1) as H1
    by (vm_compute; reflexivity).
  specialize (H H1). vm_compute in H. discriminate H.
Qed.

(** ** The player field *)

Lemma slotToken_length token : slotToken token -> String.length token = 2.
Proof. intros (d & -> & _). reflexivity. Qed.

Lemma length_append (s t : string) :
  String.length (s ++ t) = String.length s + String.length t.
Proof. induction s; simpl; congruence. Qed.

(** [extractPlayer] finds the leftmost slot token. *)
Lemma extractPlayer_leftmost s :
  match extractPlayer s with
  | Some token =>
      exists i, slotToken token /\ occursAt token s i
                /\ forall token' j, slotToken token' -> occursAt token' s j -> i <= j
  | None => forall token j, slotToken token -> ~ occursAt token s j
  end.
Proof.
  induction s as [|c rest IH].
  - intros token j Ht (pre & post & Heq & _).
    apply slotToken_length in Ht.
    apply (f_equal String.length) in Heq. rewrite !length_append in Heq.
    simpl in Heq. lia.
  - cbn [extractPlayer]. destruct rest as [|d r].
    + intros token j Ht (pre & post & Heq & _).
      apply slotToken_length in Ht.
      apply (f_equal String.length) in Heq. rewrite !length_append in Heq.
      simpl in Heq. lia.
    + destruct (Ascii.eqb c "p" && isSlotDigit d) eqn:E.
      * apply andb_prop in E. destruct E as [Ec Ed].
        apply Ascii.eqb_eq in Ec. subst c.
        exists 0. split; [exists d; auto|]. split; [|intros; lia].
        exists EmptyString, r. split; reflexivity.
      * assert (forall token j, slotToken token ->
                  occursAt token (String c (String d r)) j ->
                  exists j', j = S j' /\ occursAt token (String d r) j') as Hshift.
        { intros token j (d' & -> & Hd') (pre & post & Heq & Hlen).
          destruct pre as [|c' pre].
          - simpl in Heq. inversion Heq; subst.
            rewrite Ascii.eqb_refl, Hd' in E. discriminate.
          - simpl in Heq. inversion Heq; subst.
            exists (String.length pre). split; [reflexivity|].
            exists pre, post. split; [assumption|reflexivity]. }
        destruct (extractPlayer (String d r)) as [token|].
        -- destruct IH as (i & Ht & (pre & post & Heq & Hlen) & Hmin).
           exists (S i). split; [assumption|]. split.
           ++ exists (String c pre), post. simpl. rewrite <- Heq, Hlen. auto.
           ++ intros token' j Ht' Ho.
              destruct (Hshift _ _ Ht' Ho) as (j' & -> & Ho').
              specialize (Hmin _ _ Ht' Ho'). lia.
        -- intros token j Ht Ho.
           destruct (Hshift _ _ Ht Ho) as (j' & -> & Ho').
           exact (IH _ _ Ht Ho').
Qed.

Lemma append_same_length (s s' t t' : string) :
  (s ++ t)%string = (s' ++ t')%string -> String.length s = String.length s' ->
  s = s' /\ t = t'.
Proof.
  revert s'. induction s as [|c s IH]; intros [|c' s'] Heq Hlen;
    simpl in *; try discriminate; [auto|].
  inversion Heq; subst. destruct (IH s' H1) as [-> ->]; [lia|auto].
Qed.

Lemma occursAt_same token token' s i :
  slotToken token -> slotToken token' ->
  occursAt token s i -> occursAt token' s i -> token = token'.
Proof.
  intros (d & -> & _) (d' & -> & _) (pre & post & Heq & Hl) (pre' & post' & Heq' & Hl').
  rewrite Heq in Heq'. destruct (append_same_length _ _ _ _ Heq') as [_ H]; [lia|].
  simpl in H. inversion H. reflexivity.
Qed.

(** C9. The player field: whenever [format] returns a record, its player is
    the leftmost occurrence in the trimmed line of [p] followed by a digit
    from 1 to 4, wherever it stands (inside [mp3] as well, and for p3 and p4
    as for p1 and p2), and null exactly when there is no such occurrence; it
    is the same for every formatter state and clock reading. *)
Theorem C9_player_field (now : Z) (this : State) (message : string)
    (this' : State) (e : Entry) :
  format now this message = (this', Returned (Some e)) ->
  player e = extractPlayer (JS.trim message)
  /\ (forall token,
        player e = Some token <->
        exists i, slotToken token /\ occursAt token (JS.trim message) i
                  /\ forall token' j, slotToken token' ->
                                      occursAt token' (JS.trim message) j -> i <= j)
  /\ (player e = None <->
      forall token j, slotToken token -> ~ occursAt token (JS.trim message) j)
  /\ (forall now2 this2 this2' e2,
        format now2 this2 message = (this2', Returned (Some e2)) ->
        player e2 = player e)
  /\ extractPlayer "a song.mp3 plays" = Some "p3"%string
  /\ extractPlayer "|switch|p4a: Pikachu" = Some "p4"%string.
Proof.
  assert (forall n t t' x, format n t message = (t', Returned (Some x)) ->
            player x = extractPlayer (JS.trim message)) as Hplayer.
  { intros n t t' x Hf.
    destruct (negb (JS.nonEmpty (JS.trim message))
              || String.eqb (JS.trim message) "|") eqn:Hd.
    - rewrite (format_discarded _ _ _ Hd) in Hf. discriminate.
    - rewrite (format_kept n t message Hd) in Hf. cbv zeta in Hf.
      injection Hf as _ Ho. destruct (stampOf n _); [|discriminate].
      injection Ho as <-. reflexivity. }
  intros Hf. pose proof (Hplayer _ _ _ _ Hf) as Hp. rewrite Hp.
  pose proof (extractPlayer_leftmost (JS.trim message)) as Hl.
  split; [reflexivity|]. split; [|split; [|split; [|split; reflexivity]]].
  - intros token. destruct (extractPlayer (JS.trim message)) as [found|].
    + destruct Hl as (i & Ht & Ho & Hmin). split.
      * intros H. injection H as <-. exists i. auto.
      * intros (j & Ht' & Ho' & Hmin'). f_equal.
        assert (i = j) as -> by (specialize (Hmin _ _ Ht' Ho');
                                 specialize (Hmin' _ _ Ht Ho); lia).
        eapply occursAt_same; eassumption.
    + split; [discriminate|]. intros (j & Ht' & Ho' & _).
      destruct (Hl _ _ Ht' Ho').
  - destruct (extractPlayer (JS.trim message)) as [found|].
    + destruct Hl as (i & Ht & Ho & _). split; [discriminate|].
      intros H. destruct (H _ _ Ht Ho).
    + split; [intros _; exact Hl | reflexivity].
  - intros now2 this2 this2' e2 Hf2. apply (Hplayer _ _ _ _ Hf2).
Qed.

Lemma C9_player_field_witness :
  let line := "  |move|p2a: Bulbasaur|Tackle|p1a: Eevee  "%string in
  let entry := mkEntry "|move|p2a: Bulbasaur|Tackle|p1a: Eevee"
                       "1970-01-01T00:00:00.000Z" None (Some "p2"%string) in
  format 0 fresh line = (fresh, Returned (Some entry))
  /\ extractPlayer (JS.trim line) = Some "p2"%string.
Proof.
  intros line entry.
  assert (format 0 fresh line = (fresh, Returned (Some entry))) as Hf
    by (vm_compute; reflexivity).
  split; [exact Hf|].
  rewrite <- (proj1 (C9_player_field 0 fresh line fresh entry Hf)). reflexivity.
Defined.

(** ** Start-up *)

Section StartupFacts.

Context {PRNGSeed PokemonSet : Type}.
Variable PRNG_new : string -> PRNGSeed + string.
Variable PRNG_generateSeed : PRNGSeed.
Variable readFileSync : string -> string + string.
Variable Teams_import : string -> option (list PokemonSet).
Variable Teams_pack : list PokemonSet -> string.

Local Abbreviation Eff := (@Effect PRNGSeed).
Local Abbreviation P := (@Proc PRNGSeed).

Lemma stageOk_ret {A} (a : A) : stageOk (ret a : P A).
Proof. reflexivity. Qed.

Lemma stageOk_emit (e : Eff) : beforeEngine e = true -> stageOk (emit e).
Proof. intros H. simpl. rewrite H. reflexivity. Qed.

Lemma stageOk_error (text : string) {A} :
  stageOk (bind (emit (ConsoleError text)) (fun _ => exit 1) : P A).
Proof. left. exists [], text. split; reflexivity. Qed.

Lemma stageOk_throw {A} : stageOk (throwTypeError : P A).
Proof. right. exists []. split; reflexivity. Qed.

Lemma fatal_prefix (log1 log2 : list Eff) :
  forallb beforeEngine log1 = true -> fatal log2 -> fatal (log1 ++ log2).
Proof.
  intros H (pre & text & -> & Hpre). exists (log1 ++ pre), text.
  rewrite app_assoc, forallb_app, H, Hpre. split; reflexivity.
Qed.

Lemma crashed_prefix (log1 log2 : list Eff) :
  forallb beforeEngine log1 = true -> crashed log2 -> crashed (log1 ++ log2).
Proof.
  intros H (pre & -> & Hpre). exists (log1 ++ pre).
  rewrite app_assoc, forallb_app, H, Hpre. split; reflexivity.
Qed.

Lemma ended_prefix (log1 log2 : list Eff) :
  forallb beforeEngine log1 = true ->
  fatal log2 \/ crashed log2 -> fatal (log1 ++ log2) \/ crashed (log1 ++ log2).
Proof.
  intros H [Hf|Hc]; [left; apply fatal_prefix | right; apply crashed_prefix];
    assumption.
Qed.

Lemma stageOk_bind {A B} (m : P A) (k : A -> P B) :
  stageOk m -> (forall a, stageOk (k a)) -> stageOk (bind m k).
Proof.
  destruct m as [log [a|]]; simpl; intros Hm Hk; [|assumption].
  specialize (Hk a). destruct (k a) as [log' [b|]]; simpl in *.
  - rewrite forallb_app, Hm, Hk. reflexivity.
  - apply ended_prefix; assumption.
Qed.

Lemma exitsFatal_bind {A B} (m : P A) (k : A -> P B) :
  stageOk m -> (forall a, exitsFatal (k a)) -> exitsFatal (bind m k).
Proof.
  destruct m as [log [a|]]; simpl; intros Hm Hk out Hout.
  - specialize (Hk a). destruct (k a) as [log' [b|]]; [discriminate|].
    injection Hout as <-. apply ended_prefix; [assumption|]. apply Hk. reflexivity.
  - injection Hout as <-. assumption.
Qed.

Lemma stageOk_parseLogFormat value : stageOk (parseLogFormat value : P LogFormat).
Proof.
  destruct value as [|s|b]; try apply stageOk_ret.
  unfold parseLogFormat. destruct (findFormat _); [apply stageOk_ret|].
  apply stageOk_error.
Qed.

Lemma stageOk_parseSeed value :
  stageOk (parseSeed PRNG_new PRNG_generateSeed value).
Proof.
  destruct value as [|s|b]; [apply stageOk_ret| |apply stageOk_error].
  unfold parseSeed. destruct (negb (JS.nonEmpty (JS.trim s))); [apply stageOk_error|].
  destruct (String.eqb _ _); [apply stageOk_ret|].
  destruct (PRNG_new _) as [seed|err]; [apply stageOk_ret|].
  left. exists [ConsoleError ("Invalid seed " ++ quoted s ++ ".")%string], err.
  split; reflexivity.
Qed.

Lemma stageOk_openOutput values : stageOk (openOutput values : P Output).
Proof.
  unfold openOutput. destruct (opt_log_file values) as [|path|[|]];
    try apply stageOk_ret; [|apply stageOk_throw].
  destruct (JS.nonEmpty path) eqn:E; [|apply stageOk_ret].
  unfold openLogFile. rewrite E. reflexivity.
Qed.

Lemma stageOk_loadTeamFromFile path slot :
  stageOk (loadTeamFromFile readFileSync Teams_import Teams_pack path slot : P string).
Proof.
  unfold loadTeamFromFile.
  destruct (negb (JS.nonEmpty (JS.trim path))); [apply stageOk_error|].
  apply stageOk_bind; [apply stageOk_emit; reflexivity|]. intros _.
  destruct (readFileSync _) as [contents|err].
  - destruct (Teams_import contents) as [[|set sets]|]; try apply stageOk_error.
    destruct (negb (JS.nonEmpty _)); [apply stageOk_error | apply stageOk_ret].
  - left. eexists [ConsoleError _], err. split; reflexivity.
Qed.

Lemma stageOk_loadSlot values slot :
  stageOk (loadSlot readFileSync Teams_import Teams_pack values slot
           : P (option string)).
Proof.
  unfold loadSlot. destruct (teamFileOption values slot) as [|path|[|]];
    try apply stageOk_ret; [|apply stageOk_throw].
  destruct (JS.nonEmpty path); [|apply stageOk_ret].
  apply stageOk_bind; [apply stageOk_loadTeamFromFile|]. intros a. apply stageOk_ret.
Qed.

Lemma snd_bind {A B} (m : P A) (k : A -> P B) :
  snd (bind m k) = match snd m with Some a => snd (k a) | None => None end.
Proof. destruct m as [log [a|]]; simpl; [destruct (k a)|]; reflexivity. Qed.

Lemma parseLogFormat_some value f :
  snd (parseLogFormat value : P LogFormat) = Some f ->
  (parseLogFormat value : P LogFormat) = ([], Some f).
Proof.
  destruct value as [|s|b]; simpl; try (intros H; injection H as <-; reflexivity).
  destruct (findFormat _); simpl; intros H; [injection H as <-; reflexivity|discriminate].
Qed.

(** A slot whose team file option is given (a non-empty string, or no
    value at all) either ends the process or comes back with a non-empty
    packed team. *)
Lemma loadSlot_supplied values slot :
  truthy (teamFileOption values slot) = true ->
  match snd (loadSlot readFileSync Teams_import Teams_pack values slot
             : P (option string)) with
  | Some loaded => exists packed, loaded = Some packed /\ JS.nonEmpty packed = true
  | None => True
  end.
Proof.
  intros Ht. unfold loadSlot.
  destruct (teamFileOption values slot) as [|path|[|]]; try discriminate Ht;
    [|exact I].
  cbn [truthy] in Ht. rewrite Ht, snd_bind.
  unfold loadTeamFromFile.
  destruct (negb (JS.nonEmpty (JS.trim path))); [exact I|].
  rewrite snd_bind. cbn [snd emit].
  destruct (readFileSync _) as [contents|err]; [|exact I].
  destruct (Teams_import contents) as [[|set sets]|]; try exact I.
  destruct (JS.nonEmpty (Teams_pack (set :: sets))) eqn:E; simpl; [|exact I].
  eexists. split; [reflexivity|exact E].
Qed.

Lemma main_exits_fatal values :
  exitsFatal (main PRNG_new PRNG_generateSeed readFileSync Teams_import Teams_pack
                   values).
Proof.
  unfold main.
  apply exitsFatal_bind; [apply stageOk_emit; reflexivity|]. intros _.
  apply exitsFatal_bind; [apply stageOk_parseLogFormat|]. intros logFormat.
  apply exitsFatal_bind; [apply stageOk_parseSeed|]. intros seed.
  apply exitsFatal_bind; [apply stageOk_openOutput|]. intros output.
  apply exitsFatal_bind; [apply stageOk_loadSlot|]. intros team1.
  apply exitsFatal_bind; [apply stageOk_loadSlot|]. intros team2.
  apply exitsFatal_bind.
  { destruct (_ && _); [apply stageOk_error | apply stageOk_ret]. }
  intros _ log H.
  destruct (truthy (opt_interactive_stdin values)), logFormat; discriminate H.
Qed.

Lemma hasTeam_supplied values slot team1 team2 :
  truthy (teamFileOption values slot) = true ->
  snd (loadSlot readFileSync Teams_import Teams_pack values p1 : P (option string))
    = Some team1 ->
  snd (loadSlot readFileSync Teams_import Teams_pack values p2 : P (option string))
    = Some team2 ->
  hasTeam (mkTeams team1 team2) p1 || hasTeam (mkTeams team1 team2) p2 = true.
Proof.
  intros Ht E1 E2. pose proof (loadSlot_supplied values slot Ht) as Hs.
  destruct slot.
  - rewrite E1 in Hs. destruct Hs as (packed & -> & Hp).
    unfold hasTeam. simpl. rewrite Hp. reflexivity.
  - rewrite E2 in Hs. destruct Hs as (packed & -> & Hp).
    unfold hasTeam at 2. simpl. rewrite Hp. apply orb_true_r.
Qed.

Lemma conflict_exits values :
  truthy (opt_interactive_stdin values) = true ->
  (exists slot, truthy (teamFileOption values slot) = true) ->
  snd (main PRNG_new PRNG_generateSeed readFileSync Teams_import Teams_pack values)
    = None.
Proof.
  intros Hi (slot & Ht).
  unfold main. rewrite snd_bind. cbn [snd emit].
  rewrite snd_bind. destruct (snd (parseLogFormat _)) as [logFormat|]; [|reflexivity].
  rewrite snd_bind. destruct (snd (parseSeed _ _ _)) as [seed|]; [|reflexivity].
  rewrite snd_bind. destruct (snd (openOutput _)) as [output|]; [|reflexivity].
  rewrite snd_bind.
  destruct (snd (loadSlot _ _ _ values p1)) as [team1|] eqn:E1; [|reflexivity].
  rewrite snd_bind.
  destruct (snd (loadSlot _ _ _ values p2)) as [team2|] eqn:E2; [|reflexivity].
  rewrite snd_bind, Hi, (hasTeam_supplied values slot team1 team2 Ht E1 E2).
  reflexivity.
Qed.

(** *** Where a [TypeError] can come from *)

Lemma throwsNothing_ret {A} (a : A) : throwsNothing (ret a : P A).
Proof. reflexivity. Qed.

Lemma throwsNothing_emit (e : Eff) : isTypeError e = false -> throwsNothing (emit e).
Proof. intros H. unfold throwsNothing. simpl. rewrite H. reflexivity. Qed.

Lemma throwsNothing_exit {A} code : throwsNothing (exit code : P A).
Proof. reflexivity. Qed.

Lemma throwsNothing_bind {A B} (m : P A) (k : A -> P B) :
  throwsNothing m -> (forall a, throwsNothing (k a)) -> throwsNothing (bind m k).
Proof.
  unfold throwsNothing. destruct m as [log [a|]]; simpl; intros Hm Hk; [|assumption].
  specialize (Hk a). destruct (k a) as [log' r]. simpl in *.
  rewrite forallb_app, Hm, Hk. reflexivity.
Qed.

Lemma throwsNothing_error (text : string) {A} :
  throwsNothing (bind (emit (ConsoleError text)) (fun _ => exit 1) : P A).
Proof. reflexivity. Qed.

Lemma throwsNothing_parseLogFormat value :
  throwsNothing (parseLogFormat value : P LogFormat).
Proof.
  destruct value as [|s|b]; try reflexivity.
  unfold parseLogFormat. destruct (findFormat _); reflexivity.
Qed.

Lemma throwsNothing_parseSeed value :
  throwsNothing (parseSeed PRNG_new PRNG_generateSeed value).
Proof.
  destruct value as [|s|b]; try reflexivity.
  unfold parseSeed. destruct (negb (JS.nonEmpty (JS.trim s))); [reflexivity|].
  destruct (String.eqb _ _); [reflexivity|].
  destruct (PRNG_new _) as [seed|err]; reflexivity.
Qed.

Lemma throwsNothing_openOutput values :
  valueless (opt_log_file values) = false ->
  throwsNothing (openOutput values : P Output).
Proof.
  unfold openOutput. destruct (opt_log_file values) as [|path|[|]];
    try reflexivity; [|discriminate].
  intros _. destruct (JS.nonEmpty path) eqn:E; [|reflexivity].
  unfold openLogFile. rewrite E. reflexivity.
Qed.

Lemma throwsNothing_loadTeamFromFile path slot :
  throwsNothing (loadTeamFromFile readFileSync Teams_import Teams_pack path slot
                 : P string).
Proof.
  unfold loadTeamFromFile.
  destruct (negb (JS.nonEmpty (JS.trim path))); [reflexivity|].
  apply throwsNothing_bind; [reflexivity|]. intros _.
  destruct (readFileSync _) as [contents|err]; [|reflexivity].
  destruct (Teams_import contents) as [[|set sets]|]; try reflexivity.
  destruct (negb (JS.nonEmpty _)); reflexivity.
Qed.

Lemma throwsNothing_loadSlot values slot :
  valueless (teamFileOption values slot) = false ->
  throwsNothing (loadSlot readFileSync Teams_import Teams_pack values slot
                 : P (option string)).
Proof.
  unfold loadSlot. destruct (teamFileOption values slot) as [|path|[|]];
    try reflexivity; [|discriminate].
  intros _. destruct (JS.nonEmpty path); [|reflexivity].
  apply throwsNothing_bind; [apply throwsNothing_loadTeamFromFile|].
  intros a. reflexivity.
Qed.

Lemma main_throws_only_valueless values :
  valueless (opt_log_file values) = false ->
  valueless (opt_p1_team_file values) = false ->
  valueless (opt_p2_team_file values) = false ->
  throwsNothing (main PRNG_new PRNG_generateSeed readFileSync Teams_import Teams_pack
                      values).
Proof.
  intros H0 H1 H2. unfold main.
  apply throwsNothing_bind; [reflexivity|]. intros _.
  apply throwsNothing_bind; [apply throwsNothing_parseLogFormat|]. intros logFormat.
  apply throwsNothing_bind; [apply throwsNothing_parseSeed|]. intros seed.
  apply throwsNothing_bind; [apply throwsNothing_openOutput, H0|]. intros output.
  apply throwsNothing_bind; [apply throwsNothing_loadSlot, H1|]. intros team1.
  apply throwsNothing_bind; [apply throwsNothing_loadSlot, H2|]. intros team2.
  apply throwsNothing_bind.
  { destruct (_ && _); reflexivity. }
  intros _. destruct (truthy (opt_interactive_stdin values)), logFormat; reflexivity.
Qed.

Lemma crashed_throws (log : list Eff) :
  crashed log -> forallb (fun e => negb (isTypeError e)) log = false.
Proof.
  intros (pre & -> & _). rewrite forallb_app. simpl. apply andb_false_r.
Qed.

(** C8. Configuration errors, as amended: with [--interactive-stdin] and a
    team file option given for some slot, [main] always ends the process
    before any battle stream is built or anything is piped, either by a
    diagnostic on [console.error] followed by exit status 1 or by an
    uncaught [TypeError]; but the diagnostic is the conflict message only
    when the stages before the check all pass (log format, seed, opening
    the output, loading both slots), since the check comes last and an
    earlier stage that fails exits with its own diagnostic.  An unknown log
    format and a seed that is empty after trimming end the process right
    after the format data load, with their diagnostic and exit status 1.
    However [main] ends the process at start-up, only the format data load,
    diagnostics, the opening of the log file and team file reads come
    before; and a [TypeError] needs a path option given without a value. *)
Theorem C8_configuration_errors (values : CLIValues) :
  let run := main PRNG_new PRNG_generateSeed readFileSync Teams_import Teams_pack
                  values in
  (truthy (opt_interactive_stdin values) = true ->
   (exists slot, truthy (teamFileOption values slot) = true) ->
   snd run = None
   /\ (fatal (fst run) \/ crashed (fst run))
   /\ forall f seed logo out log1 team1 log2 team2,
        (parseLogFormat (opt_log_format values) : P LogFormat) = ([], Some f) ->
        parseSeed PRNG_new PRNG_generateSeed (opt_seed values) = ([], Some seed) ->
        (openOutput values : P Output) = (logo, Some out) ->
        (loadSlot readFileSync Teams_import Teams_pack values p1
         : P (option string)) = (log1, Some team1) ->
        (loadSlot readFileSync Teams_import Teams_pack values p2
         : P (option string)) = (log2, Some team2) ->
        fst run =
          DexIncludeFormats :: logo ++ log1 ++ log2
            ++ [ConsoleError conflictMessage; ProcessExit 1])
  /\ (forall s,
        opt_log_format values = jsString s ->
        findFormat (JS.toLowerCase s) = None ->
        run = ([DexIncludeFormats;
                ConsoleError ("Unknown log format " ++ quoted s
                                ++ ". Supported formats: text, json.")%string;
                ProcessExit 1], None))
  /\ (forall s f,
        opt_seed values = jsString s ->
        JS.trim s = EmptyString ->
        snd (parseLogFormat (opt_log_format values) : P LogFormat) = Some f ->
        run = ([DexIncludeFormats;
                ConsoleError "Seed cannot be an empty string.";
                ProcessExit 1], None))
  /\ exitsFatal run
  /\ (forall log,
        run = (log, None) -> crashed log ->
        valueless (opt_log_file values) = true
        \/ valueless (opt_p1_team_file values) = true
        \/ valueless (opt_p2_team_file values) = true).
Proof.
  intros run. split; [|split; [|split; [|split]]].
  - intros Hi Hsup. pose proof (conflict_exits values Hi Hsup) as Hnone.
    split; [exact Hnone|]. split.
    + apply (main_exits_fatal values). unfold run.
      destruct (main _ _ _ _ _ values) as [log r]. simpl in Hnone. subst r.
      reflexivity.
    + intros f seed logo out log1 team1 log2 team2 Hlf Hsd Hout H1 H2.
      destruct Hsup as (slot & Ht).
      assert (hasTeam (mkTeams team1 team2) p1 || hasTeam (mkTeams team1 team2) p2
              = true) as Hteam.
      { apply (hasTeam_supplied values slot team1 team2 Ht).
        - rewrite H1. reflexivity.
        - rewrite H2. reflexivity. }
      subst run. unfold main. rewrite Hlf, Hsd, Hout, H1, H2.
      cbn [bind emit fst snd app]. rewrite Hi, Hteam. cbn.
      reflexivity.
  - intros s Hopt Hfind. subst run. unfold main, parseLogFormat.
    rewrite Hopt, Hfind. reflexivity.
  - intros s f Hopt Htrim Hlf. subst run. unfold main.
    rewrite (parseLogFormat_some _ _ Hlf), Hopt. unfold parseSeed.
    rewrite Htrim. reflexivity.
  - apply main_exits_fatal.
  - intros log Hrun Hcrash. apply crashed_throws in Hcrash.
    destruct (valueless (opt_log_file values)) eqn:H0; [auto|].
    destruct (valueless (opt_p1_team_file values)) eqn:H1; [auto|].
    destruct (valueless (opt_p2_team_file values)) eqn:H2; [auto|].
    pose proof (main_throws_only_valueless values H0 H1 H2) as Hq.
    unfold throwsNothing in Hq. fold run in Hq. rewrite Hrun in Hq.
    cbn [fst] in Hq. congruence.
Qed.

End StartupFacts.

(** C8, the claim as worded fails: with [--interactive-stdin] and a team
    file that cannot be read, the process ends with the diagnostic of the
    failed read; the conflict is never reported. *)
Lemma C8_conflict_counterexample : ~ conflict_as_stated.
Proof.
  intros H.
  specialize (H nat unit (fun _ => inl 7) 7 (fun _ => inr "ENOENT"%string)
                (fun _ => Some [tt]) (fun _ => "Pikachu|||"%string)
                (mkValues undefined undefined undefined undefined undefined undefined
                          undefined (jsString "missing.txt") undefined
                          (jsBoolean true))
                eq_refl (ex_intro _ p1 eq_refl)).
  vm_compute in H.
  repeat (destruct H as [H|H]; [discriminate H|]). exact H.
Qed.

Lemma C8_configuration_errors_witness :
  let values :=
    mkValues undefined undefined undefined undefined (jsString "json") undefined
             undefined (jsString "team.txt") undefined (jsBoolean true) in
  let run :=
    main (PRNGSeed := nat) (PokemonSet := unit)
         (fun _ => inl 7) 7 (fun _ => inl "Pikachu"%string)
         (fun _ => Some [tt]) (fun _ => "Pikachu|||"%string) values in
  snd run = None
  /\ fst run = [DexIncludeFormats; ReadFile "team.txt";
                ConsoleError conflictMessage; ProcessExit 1].
Proof.
  intros values run.
  destruct (C8_configuration_errors (PRNGSeed := nat) (PokemonSet := unit)
              (fun _ => inl 7) 7 (fun _ => inl "Pikachu"%string)
              (fun _ => Some [tt]) (fun _ => "Pikachu|||"%string) values)
    as (Hconflict & _).
  destruct Hconflict as (Hnone & _ & Hlog);
    [reflexivity | exists p1; reflexivity |].
  split; [exact Hnone|].
  exact (Hlog json None [] Stdout [ReadFile "team.txt"] (Some "Pikachu|||"%string)
              [] None eq_refl eq_refl eq_refl eq_refl eq_refl).
Defined.

(** ** More on the write side *)

Lemma behindLastMarker_spec ls :
  match behindLastMarker ls with
  | Some after =>
      exists l1 m, ls = l1 ++ m :: after /\ isStart m = true
                   /\ existsb isStart after = false
  | None => existsb isStart ls = false
  end.
Proof.
  induction ls as [|lb ls IH]; simpl; [reflexivity|].
  destruct (behindLastMarker ls) as [after|].
  - destruct IH as (l1 & m & -> & Hm & Hq). exists (lb :: l1), m. auto.
  - destruct (isStart lb) eqn:E.
    + exists [], lb. auto.
    + simpl. exact IH.
Qed.

Lemma afterLines_output teams ls st :
  pendingInjection st = false ->
  written (afterLines teams ls st) =
    written st ++ renderAll ls ++ injectionOf teams ls.
Proof.
  intros Hp. unfold injectionOf.
  pose proof (behindLastMarker_spec ls) as H.
  destruct (behindLastMarker ls) as [after|].
  - destruct H as (l1 & m & -> & Hm & Hq). apply afterLines_marker; assumption.
  - rewrite (afterLines_quiet _ _ _ Hp H), app_nil_r. reflexivity.
Qed.

Lemma written_upto teams input k :
  k <= S (List.length input) ->
  written (stateAfter teams input k) = flat_map (stepOutput teams input) (seq 0 k).
Proof.
  induction k as [|k IH]; intros Hk; [reflexivity|].
  destruct (stateAfter_step teams input k) as (_ & Hw & Hp); [lia|].
  rewrite Hw, (afterLines_output _ _ _ Hp), IH by lia.
  rewrite seq_S, flat_map_app. simpl. rewrite app_nil_r. reflexivity.
Qed.

Lemma handled_upto teams input k :
  k <= S (List.length input) ->
  handled (stateAfter teams input k) = flat_map (stepLines teams input) (seq 0 k).
Proof.
  intros Hk. pose proof (handled_between teams input 0 k Hk) as H.
  simpl in H. exact H.
Qed.

Lemma flat_map_renderAll {A} (f : A -> list (string * bool)) l :
  flat_map (fun x => renderAll (f x)) l = renderAll (flat_map f l).
Proof.
  induction l as [|x l IH]; simpl; [reflexivity|].
  rewrite renderAll_app, IH. reflexivity.
Qed.

Lemma written_by_steps teams input :
  written (pipeInputWithTeams teams input) =
    flat_map (stepOutput teams input) (seq 0 (S (List.length input))) ++ [WriteEnd].
Proof.
  rewrite pipe_stateAfter. unfold streamWriteEnd. cbn [written].
  rewrite (written_upto teams input _ (le_n _)). reflexivity.
Qed.

Lemma lines_by_steps teams input :
  flat_map (fun n => renderAll (stepLines teams input n))
           (seq 0 (S (List.length input)))
  = renderAll (linesOf (textOf input)).
Proof.
  rewrite flat_map_renderAll, <- (handled_upto teams input _ (le_n _)).
  rewrite <- (handled_all teams input), pipe_stateAfter. reflexivity.
Qed.

(** X1. The output as a function of the delivered lines: the run writes,
    step after step (each chunk, then the flush at the end), the lines the
    step delivers followed by what the step injects, and ends the stream;
    what a step injects depends on its own lines only.  Leaving the
    injections out gives the lines of the text in their order. *)
Theorem X1_output_by_steps (teams : Teams) (input : list string) :
  written (pipeInputWithTeams teams input) =
    flat_map (stepOutput teams input) (seq 0 (S (List.length input))) ++ [WriteEnd]
  /\ flat_map (fun n => renderAll (stepLines teams input n))
              (seq 0 (S (List.length input)))
     = renderAll (linesOf (textOf input)).
Proof.
  split.
  - rewrite pipe_stateAfter. unfold streamWriteEnd. cbn [written].
    rewrite (written_upto teams input _ (le_n _)). reflexivity.
  - rewrite flat_map_renderAll, <- (handled_upto teams input _ (le_n _)).
    rewrite <- (handled_all teams input), pipe_stateAfter. reflexivity.
Qed.

Lemma commandsDue_members teams after c :
  In c (commandsDue teams after) ->
  exists slot t, team teams slot = Some t /\ JS.nonEmpty t = true
                 /\ c = Write (playerCommand slot t).
Proof.
  unfold commandsDue. rewrite in_flat_map. intros (slot & _ & Hin).
  destruct (team teams slot) as [t|] eqn:Ht; [|destruct Hin].
  destruct (JS.nonEmpty t) eqn:Hne; simpl in Hin; [|destruct Hin].
  destruct (negb _); [|destruct Hin].
  destruct Hin as [<-|[]]. exists slot, t. auto.
Qed.

Lemma injectionOf_members teams ls c :
  In c (injectionOf teams ls) ->
  exists slot t, team teams slot = Some t /\ JS.nonEmpty t = true
                 /\ c = Write (playerCommand slot t).
Proof.
  unfold injectionOf. destruct (behindLastMarker ls); [|intros []].
  apply commandsDue_members.
Qed.

Lemma In_renderAll c ls :
  In c (renderAll ls) <-> exists lb, In lb ls /\ c = Write (renderLine (fst lb) (snd lb)).
Proof.
  unfold renderAll. rewrite in_map_iff. split; intros (lb & H1 & H2); exists lb; auto.
Qed.

(** X2. Nothing dropped, nothing invented: every line of the text is
    written, rendered as it came; and every call on the stream is such a
    line, or the synthetic command of a slot whose team is present and not
    empty, or the final [writeEnd]. *)
Theorem X2_forwarded_or_synthetic (teams : Teams) (input : list string) :
  (forall lb, In lb (linesOf (textOf input)) ->
              In (Write (renderLine (fst lb) (snd lb)))
                 (written (pipeInputWithTeams teams input)))
  /\ (forall c, In c (written (pipeInputWithTeams teams input)) ->
        c = WriteEnd
        \/ (exists lb, In lb (linesOf (textOf input))
                       /\ c = Write (renderLine (fst lb) (snd lb)))
        \/ (exists slot t, team teams slot = Some t /\ JS.nonEmpty t = true
                           /\ c = Write (playerCommand slot t))).
Proof.
  pose proof (written_by_steps teams input) as Hw.
  pose proof (lines_by_steps teams input) as Hl.
  assert (forall c, In c (renderAll (linesOf (textOf input))) <->
            exists n, In n (seq 0 (S (List.length input)))
                      /\ In c (renderAll (stepLines teams input n))) as Hsteps.
  { intros c. rewrite <- Hl, in_flat_map. reflexivity. }
  split.
  - intros lb Hin. rewrite Hw. apply in_or_app. left.
    assert (In (Write (renderLine (fst lb) (snd lb)))
               (renderAll (linesOf (textOf input)))) as Hr
      by (apply In_renderAll; eauto).
    apply Hsteps in Hr. destruct Hr as (n & Hn & Hc).
    apply in_flat_map. exists n. split; [assumption|].
    unfold stepOutput. apply in_or_app. left. assumption.
  - intros c Hin. rewrite Hw in Hin. apply in_app_or in Hin.
    destruct Hin as [Hin|[<-|[]]]; [|left; reflexivity].
    apply in_flat_map in Hin. destruct Hin as (n & Hn & Hc).
    unfold stepOutput in Hc. apply in_app_or in Hc. destruct Hc as [Hc|Hc].
    + right. left. apply In_renderAll, Hsteps. eauto.
    + right. right. eapply injectionOf_members. eassumption.
Qed.

Lemma X2_forwarded_or_synthetic_witness :
  In (Write ">p1 move 1")
     (written (pipeInputWithTeams (bothTeams "A" "B")
                 [(">start" ++ JS.str JS.LF ++ ">p1 mo")%string; "ve 1"%string])).
Proof.
  apply (proj1 (X2_forwarded_or_synthetic (bothTeams "A" "B")
                  [(">start" ++ JS.str JS.LF ++ ">p1 mo")%string; "ve 1"%string])
               (">p1 move 1"%string, false)).
  right. left. reflexivity.
Defined.

Lemma wire_renderAll_end ls :
  wire (renderAll ls ++ [WriteEnd]) = wire (renderAll ls).
Proof. rewrite wire_app. simpl. apply append_nil_r. Qed.

Lemma injectionOf_no_team teams ls :
  hasTeam teams p1 = false -> hasTeam teams p2 = false -> injectionOf teams ls = [].
Proof.
  intros H1 H2. unfold injectionOf. destruct (behindLastMarker ls); [|reflexivity].
  unfold commandsDue, hasTeam in *. simpl in *.
  destruct (team_p1 teams), (team_p2 teams); simpl;
    rewrite ?H1, ?H2; reflexivity.
Qed.

(** X3. Without teams the coordinator is a pass-through: when neither slot
    has a team (absent, or the empty string), the run writes the lines of
    the text and nothing else before [writeEnd], so the engine receives the
    input text exactly, whatever the chunks and however many markers. *)
Theorem X3_no_teams_pass_through (teams : Teams) (input : list string) :
  hasTeam teams p1 = false -> hasTeam teams p2 = false ->
  written (pipeInputWithTeams teams input) =
    renderAll (linesOf (textOf input)) ++ [WriteEnd]
  /\ wire (written (pipeInputWithTeams teams input)) = textOf input.
Proof.
  intros H1 H2. pose proof (written_by_steps teams input) as Hw.
  pose proof (lines_by_steps teams input) as Hl.
  assert (written (pipeInputWithTeams teams input) =
            renderAll (linesOf (textOf input)) ++ [WriteEnd]) as H.
  { rewrite Hw, <- Hl. f_equal. apply flat_map_ext. intros n.
    unfold stepOutput. rewrite (injectionOf_no_team _ _ H1 H2), app_nil_r.
    reflexivity. }
  split; [exact H|]. rewrite H, wire_renderAll_end. apply splitLines_wire.
Qed.

Lemma X3_no_teams_pass_through_witness :
  let input := [(">start" ++ JS.str JS.LF ++ ">pl")%string;
                ("ayer p1 {}" ++ JS.str JS.LF ++ ">start")%string] in
  wire (written (pipeInputWithTeams (mkTeams None (Some EmptyString)) input))
    = textOf input.
Proof.
  intros input.
  exact (proj2 (X3_no_teams_pass_through (mkTeams None (Some EmptyString)) input
                  eq_refl eq_refl)).
Defined.

(** X4. The stream is ended exactly once, by the last call: [writeEnd]
    comes after every write, and nowhere else. *)
Theorem X4_write_end_once (teams : Teams) (input : list string) :
  exists before,
    written (pipeInputWithTeams teams input) = before ++ [WriteEnd]
    /\ ~ In WriteEnd before
    /\ occurrences WriteEnd (written (pipeInputWithTeams teams input)) = 1.
Proof.
  pose proof (written_by_steps teams input) as Hw.
  exists (flat_map (stepOutput teams input) (seq 0 (S (List.length input)))).
  assert (~ In WriteEnd
            (flat_map (stepOutput teams input) (seq 0 (S (List.length input)))))
    as Hnot.
  { rewrite in_flat_map. intros (n & _ & Hin). unfold stepOutput in Hin.
    apply in_app_or in Hin. destruct Hin as [Hin|Hin].
    - apply In_renderAll in Hin. destruct Hin as (lb & _ & Heq). discriminate.
    - apply injectionOf_members in Hin. destruct Hin as (s & t & _ & _ & Heq).
      discriminate. }
  split; [exact Hw|]. split; [exact Hnot|].
  rewrite Hw, occurrences_app, occurrences_same, occurrences_nil.
  unfold occurrences. rewrite (proj1 (count_occ_not_In _ _ _) Hnot). reflexivity.
Qed.

Lemma quoteChar_no_newline c : JS.indexOf (JS.quoteChar c) JS.LF = None.
Proof. destruct c as [[] [] [] [] [] [] [] []]; reflexivity. Qed.

Lemma quoteBody_no_newline s : JS.indexOf (JS.quoteBody s) JS.LF = None.
Proof.
  induction s as [|c s IH]; simpl; [reflexivity|].
  apply indexOf_app_none; [apply quoteChar_no_newline | exact IH].
Qed.

Lemma splitLines_one_line body :
  JS.indexOf body JS.LF = None ->
  splitLines (body ++ JS.str JS.LF) = ([body], EmptyString).
Proof.
  induction body as [|c body IH]; simpl; [reflexivity|].
  destruct (Ascii.eqb c JS.LF); [discriminate|].
  destruct (JS.indexOf body JS.LF); [discriminate|].
  intros _. rewrite IH; reflexivity.
Qed.

Lemma quoteJSONString_no_newline s :
  JS.indexOf (JS.quoteJSONString s) JS.LF = None.
Proof.
  unfold JS.quoteJSONString.
  change (String JS.DQUOTE (JS.quoteBody s ++ JS.str JS.DQUOTE))
    with (JS.str JS.DQUOTE ++ JS.quoteBody s ++ JS.str JS.DQUOTE)%string.
  apply indexOf_app_none; [reflexivity|].
  apply indexOf_app_none; [apply quoteBody_no_newline | reflexivity].
Qed.

Lemma teamJSON_no_newline t : JS.indexOf (teamJSON t) JS.LF = None.
Proof.
  unfold teamJSON.
  apply indexOf_app_none; [reflexivity|].
  apply indexOf_app_none; [apply quoteJSONString_no_newline|].
  apply indexOf_app_none; [reflexivity|].
  apply indexOf_app_none; [apply quoteJSONString_no_newline | reflexivity].
Qed.

(** X5. A synthetic command is one line, whatever the team holds: line
    feeds (and the other control characters, quotes and backslashes) of the
    team are escaped by the JSON encoding, so the command is a text without
    line feed followed by exactly one, and reads back as a single terminated
    line that names its slot. *)
Theorem X5_command_is_one_line (slot : PlayerSlot) (t : string) :
  exists body,
    playerCommand slot t = (body ++ JS.str JS.LF)%string
    /\ JS.indexOf body JS.LF = None
    /\ linesOf (playerCommand slot t) = [(body, true)]
    /\ namesSlot slot (body, true) = true.
Proof.
  exists (">player " ++ slotName slot ++ " " ++ teamJSON t)%string.
  assert (JS.indexOf (">player " ++ slotName slot ++ " " ++ teamJSON t) JS.LF = None)
    as Hn.
  { apply indexOf_app_none; [reflexivity|].
    apply indexOf_app_none; [destruct slot; reflexivity|].
    apply indexOf_app_none; [reflexivity|]. apply teamJSON_no_newline. }
  assert (playerCommand slot t =
            ((">player " ++ slotName slot ++ " " ++ teamJSON t) ++ JS.str JS.LF)%string)
    as Hc.
  { unfold playerCommand. rewrite !append_assoc. reflexivity. }
  split; [exact Hc|]. split; [exact Hn|]. split.
  - rewrite Hc. unfold linesOf. rewrite (splitLines_one_line _ Hn). reflexivity.
  - unfold namesSlot. cbn [fst]. apply startsWith_app. exists (teamJSON t).
    rewrite !append_assoc. reflexivity.
Qed.

Lemma wire_unterminated tail : wire (renderAll (unterminated tail)) = tail.
Proof.
  unfold unterminated. destruct tail as [|a tail]; [reflexivity|].
  simpl. f_equal. apply append_nil_r.
Qed.

(** X6. The pending buffer: after any number of chunks the buffer holds no
    line feed; it is the part of the received text behind its last line
    feed, and the lines handed on so far followed by the buffer are the
    received text, so nothing is lost or repeated between chunks. *)
Theorem X6_buffer_invariant (teams : Teams) (input : list string) :
  JS.indexOf (fst (feed teams input)) JS.LF = None
  /\ fst (feed teams input) = snd (splitLines (textOf input))
  /\ (wire (renderAll (handled (snd (feed teams input)))) ++ fst (feed teams input))%string
     = textOf input
  /\ Forall (fun lb => snd lb = true) (handled (snd (feed teams input))).
Proof.
  destruct (feed_lines teams input) as [Hb Hh].
  split; [rewrite Hb; apply splitLines_no_newline|].
  split; [exact Hb|]. split.
  - rewrite Hh, Hb. rewrite <- (splitLines_wire (textOf input)) at 3.
    unfold linesOf. rewrite renderAll_app, wire_app, wire_unterminated.
    reflexivity.
  - rewrite Hh. unfold terminated. rewrite Forall_map. apply Forall_forall.
    intros l _. reflexivity.
Qed.

Lemma splitLines_no_terminator s :
  JS.indexOf s JS.LF = None -> splitLines s = ([], s).
Proof.
  intros H. pose proof (indexOf_cut s) as Hc. rewrite H in Hc.
  pose proof (cut_splitLines s) as Hs. rewrite Hc in Hs. exact Hs.
Qed.

(** X17. An unterminated line is held back: a chunk that brings no line
    feed (the buffer taken with it) is only appended to the buffer; nothing
    is written and nothing is injected for it, even when the buffer now
    begins with a marker, until its line feed or the end of the stream
    arrives. *)
Theorem X17_partial_line_held_back (teams : Teams) (input : list string)
    (chunk : string) :
  JS.indexOf (fst (feed teams input) ++ chunk) JS.LF = None ->
  fst (feed teams (input ++ [chunk])) = (fst (feed teams input) ++ chunk)%string
  /\ written (snd (feed teams (input ++ [chunk]))) = written (snd (feed teams input))
  /\ handled (snd (feed teams (input ++ [chunk]))) = handled (snd (feed teams input)).
Proof.
  intros H. rewrite feed_snoc.
  pose proof (feed_pending teams input) as Hp.
  destruct (feed teams input) as [buffer st]. cbn [fst snd] in *.
  destruct (onChunk_afterLines teams buffer st chunk) as (Hb & Hh & Hw & _).
  rewrite (splitLines_no_terminator _ H) in Hb, Hh, Hw. cbn [fst snd terminated map] in *.
  rewrite Hb, Hh, Hw. unfold afterLines, handleAll. cbn [fold_left]. rewrite Hp.
  auto.
Qed.

Lemma X17_partial_line_held_back_witness :
  written (snd (feed (bothTeams "A" "B") ["x"%string; ">start"%string])) = []
  /\ fst (feed (bothTeams "A" "B") ["x"%string; ">start"%string]) = "x>start"%string.
Proof.
  destruct (X17_partial_line_held_back (bothTeams "A" "B") ["x"%string]
              ">start"%string eq_refl) as (Hb & Hw & _).
  split; [exact Hw | exact Hb].
Defined.

(** ** More on the read side *)

Lemma kept_discard trimmed :
  negb (JS.nonEmpty trimmed) || String.eqb trimmed "|" = negb (kept trimmed).
Proof.
  unfold kept. destruct (JS.nonEmpty trimmed), (String.eqb trimmed "|"); reflexivity.
Qed.

(** The three ways a call of [format] can end. *)
Lemma format_cases now this message :
  (kept (JS.trim message) = false /\ format now this message = (this, Returned None))
  \/ (kept (JS.trim message) = true
      /\ exists this' e,
           format now this message = (this', Returned (Some e))
           /\ JsonLogFormatter.message e = JS.trim message)
  \/ (kept (JS.trim message) = true
      /\ exists this' v,
           format now this message = (this', RangeError)
           /\ battleTimestamp this' = Some v
           /\ JS.dateOfNumber (JS.mul v (JS.ofZ 1000)) = None).
Proof.
  destruct (kept (JS.trim message)) eqn:Hk.
  - right. assert (negb (JS.nonEmpty (JS.trim message))
                   || String.eqb (JS.trim message) "|" = false) as Hd
      by (rewrite kept_discard, Hk; reflexivity).
    rewrite (format_kept now this message Hd). cbv zeta.
    set (this' := mkState _ _).
    destruct (stampOf now (battleTimestamp this')) as [iso|] eqn:Hs.
    + left. split; [reflexivity|]. do 2 eexists. split; reflexivity.
    + right. split; [reflexivity|]. unfold stampOf in Hs.
      destruct (battleTimestamp this') as [v|] eqn:Hv; [|discriminate].
      exists this', v. split; [reflexivity|]. split; [exact Hv|].
      destruct (JS.dateOfNumber _); [discriminate|reflexivity].
  - left. split; [reflexivity|]. apply format_discarded.
    rewrite kept_discard, Hk. reflexivity.
Qed.

(** X7. The discard rule: [format] returns null exactly for the lines whose
    trimmed text is empty or the single character [|]; it then leaves the
    formatter as it was.  For every other line it returns a record whose
    message is the trimmed line, or throws. *)
Theorem X7_discard_rule (now : Z) (this : State) (message : string) :
  (snd (format now this message) = Returned None <->
   JS.trim message = EmptyString \/ JS.trim message = "|"%string)
  /\ (snd (format now this message) = Returned None ->
      fst (format now this message) = this)
  /\ (forall e, snd (format now this message) = Returned (Some e) ->
        JsonLogFormatter.message e = JS.trim message
        /\ JsonLogFormatter.message e <> EmptyString
        /\ JsonLogFormatter.message e <> "|"%string).
Proof.
  assert (kept (JS.trim message) = false <->
          JS.trim message = EmptyString \/ JS.trim message = "|"%string) as Hk.
  { unfold kept. destruct (JS.trim message) as [|c s] eqn:E.
    - split; [intros _; left; reflexivity | reflexivity].
    - cbn [JS.nonEmpty andb].
      destruct (String.eqb_spec (String c s) "|") as [Heq|Hne]; cbn [negb].
      + split; [intros _; right; exact Heq | reflexivity].
      + split; [discriminate|]. intros [H|H]; [discriminate|contradiction]. }
  destruct (format_cases now this message)
    as [[Hf ->]|[[Hf (this' & e & -> & He)]|[Hf (this' & v & -> & _)]]];
    cbn [fst snd].
  - split; [split; [intros _; apply Hk, Hf | reflexivity]|].
    split; [reflexivity|discriminate].
  - split. { split; [discriminate|]. intros H. apply Hk in H. congruence. }
    split. { discriminate. }
    intros e' He'. injection He' as <-.
    split; [exact He|]. rewrite He.
    split; intros H; assert (kept (JS.trim message) = false) by (apply Hk; auto);
      congruence.
  - split. { split; [discriminate|]. intros H. apply Hk in H. congruence. }
    split; discriminate.
Qed.

Lemma X7_discard_rule_witness :
  fst (format 0 (mkState (Some (JS.ofZ 2)) None) "  |  ")
    = mkState (Some (JS.ofZ 2)) None.
Proof.
  apply (proj1 (proj2 (X7_discard_rule 0 (mkState (Some (JS.ofZ 2)) None) "  |  "))).
  reflexivity.
Defined.

Lemma trimEnd_idempotent s : JS.trimEnd (JS.trimEnd s) = JS.trimEnd s.
Proof.
  induction s as [|c s IH]; simpl; [reflexivity|].
  destruct (JS.trimEnd s) as [|d r] eqn:E.
  - destruct (JS.isWhiteSpace c) eqn:Ec; simpl; [reflexivity|].
    rewrite Ec. reflexivity.
  - simpl in *. rewrite IH. reflexivity.
Qed.

Lemma trimEnd_head c s :
  JS.isWhiteSpace c = false -> exists r, JS.trimEnd (String c s) = String c r.
Proof.
  intros Hc. simpl. destruct (JS.trimEnd s); [rewrite Hc|]; eexists; reflexivity.
Qed.

Lemma trimStart_head s :
  JS.trimStart s = EmptyString
  \/ exists c r, JS.trimStart s = String c r /\ JS.isWhiteSpace c = false.
Proof.
  induction s as [|c s IH]; simpl; [auto|].
  destruct (JS.isWhiteSpace c) eqn:E; [exact IH|]. right. eauto.
Qed.

Lemma trim_idempotent s : JS.trim (JS.trim s) = JS.trim s.
Proof.
  unfold JS.trim. destruct (trimStart_head s) as [->|(c & r & -> & Hc)];
    [reflexivity|].
  destruct (trimEnd_head c r Hc) as [r' Hr]. rewrite Hr.
  simpl JS.trimStart. rewrite Hc, <- Hr. apply trimEnd_idempotent.
Qed.

Lemma trimStart_white pre s :
  allWhiteSpace pre = true -> JS.trimStart (pre ++ s) = JS.trimStart s.
Proof.
  induction pre as [|c pre IH]; simpl; [reflexivity|].
  destruct (JS.isWhiteSpace c); [exact IH|discriminate].
Qed.

Lemma trimStart_all s : allWhiteSpace s = true -> JS.trimStart s = EmptyString.
Proof.
  induction s as [|c s IH]; simpl; [reflexivity|].
  destruct (JS.isWhiteSpace c); [exact IH|discriminate].
Qed.

Lemma trimEnd_all s : allWhiteSpace s = true -> JS.trimEnd s = EmptyString.
Proof.
  induction s as [|c s IH]; simpl; [reflexivity|].
  destruct (JS.isWhiteSpace c); [|discriminate].
  intros H. rewrite (IH H). reflexivity.
Qed.

Lemma trimEnd_white s post :
  allWhiteSpace post = true -> JS.trimEnd (s ++ post) = JS.trimEnd s.
Proof.
  intros H. induction s as [|c s IH]; simpl; [apply trimEnd_all, H|].
  rewrite IH. reflexivity.
Qed.

Lemma trimStart_app s post :
  JS.trimStart (s ++ post) =
    if allWhiteSpace s then JS.trimStart post else (JS.trimStart s ++ post)%string.
Proof.
  induction s as [|c s IH]; simpl; [reflexivity|].
  destruct (JS.isWhiteSpace c); [exact IH|reflexivity].
Qed.

Lemma trim_padded pre s post :
  allWhiteSpace pre = true -> allWhiteSpace post = true ->
  JS.trim (pre ++ s ++ post) = JS.trim s.
Proof.
  intros Hpre Hpost. unfold JS.trim.
  rewrite (trimStart_white pre _ Hpre), trimStart_app.
  destruct (allWhiteSpace s) eqn:Hs.
  - rewrite (trimStart_all post Hpost), (trimStart_all s Hs). reflexivity.
  - apply trimEnd_white, Hpost.
Qed.

(** X8. White space around a line does not matter: the carriage return,
    the tab and the space are white space for [trim], and a line with any
    run of white space put before it and after it (a carriage return left
    by a CRLF line end, indentation) is trimmed to the same text and gets
    from [format] the same record and the same stored context as the line
    itself; [format] does to a line what it does to the trimmed line. *)
Theorem X8_format_ignores_outer_space (now : Z) (this : State)
    (pre message post : string) :
  allWhiteSpace pre = true ->
  allWhiteSpace post = true ->
  JS.trim (pre ++ message ++ post) = JS.trim message
  /\ format now this (pre ++ message ++ post) = format now this message
  /\ format now this message = format now this (JS.trim message)
  /\ format now this (message ++ JS.str CR) = format now this message
  /\ JS.isWhiteSpace CR = true
  /\ JS.isWhiteSpace TAB = true
  /\ JS.isWhiteSpace " " = true.
Proof.
  intros Hpre Hpost.
  split; [apply trim_padded; assumption|].
  split; [unfold format; rewrite (trim_padded pre message post Hpre Hpost);
          reflexivity|].
  split; [unfold format; rewrite trim_idempotent; reflexivity|].
  split; [|repeat split].
  pose proof (trim_padded EmptyString message (JS.str CR) eq_refl eq_refl) as H.
  change (EmptyString ++ message ++ JS.str CR)%string
    with (message ++ JS.str CR)%string in H.
  unfold format. rewrite H. reflexivity.
Qed.

Lemma X8_format_ignores_outer_space_witness :
  exists this' e,
    format 0%Z fresh (String TAB " " ++ "|turn|5" ++ JS.str CR)
      = (this', Returned (Some e))
    /\ JsonLogFormatter.message e = "|turn|5"%string
    /\ format 0%Z fresh "|turn|5" = (this', Returned (Some e)).
Proof.
  destruct (X8_format_ignores_outer_space 0%Z fresh (String TAB " ") "|turn|5"
              (JS.str CR) eq_refl eq_refl) as (_ & H & _).
  rewrite H. do 2 eexists. split; [vm_compute; reflexivity|].
  split; reflexivity.
Defined.

(** *** The run of [pipeJsonOutput] *)

Lemma onRaw_rejected clock st raws :
  fold_left (onRaw clock) raws (Rejected st) = Rejected st.
Proof. induction raws as [|raw raws IH]; simpl; [reflexivity|exact IH]. Qed.

(** One round of the inner loop from a running state. *)
Lemma onRaw_cases clock st raw :
  (kept (JS.trim raw) = false
   /\ exists calls,
        onRaw clock (Running st) raw = Running (mkOutput (formatter st) calls (writerCalls st))
        /\ calls = (if JS.nonEmpty raw then S (formatCalls st) else formatCalls st))
  \/ (kept (JS.trim raw) = true /\ JS.nonEmpty raw = true
      /\ exists this' e,
           format (clock (formatCalls st)) (formatter st) raw = (this', Returned (Some e))
           /\ JsonLogFormatter.message e = JS.trim raw
           /\ onRaw clock (Running st) raw =
                Running (mkOutput this' (S (formatCalls st))
                                  (writerCalls st ++ [WriterWrite e])))
  \/ (kept (JS.trim raw) = true /\ JS.nonEmpty raw = true
      /\ exists this' v,
           onRaw clock (Running st) raw =
             Rejected (mkOutput this' (S (formatCalls st)) (writerCalls st))
           /\ battleTimestamp this' = Some v
           /\ JS.dateOfNumber (JS.mul v (JS.ofZ 1000)) = None).
Proof.
  unfold onRaw. destruct (JS.nonEmpty raw) eqn:Hne; cbn [negb].
  - destruct (format_cases (clock (formatCalls st)) (formatter st) raw)
      as [[Hk Hf]|[[Hk (this' & e & Hf & He)]|[Hk (this' & v & Hf & Hv & Hd)]]];
      rewrite Hf.
    + left. split; [exact Hk|]. eexists. split; reflexivity.
    + right. left. split; [exact Hk|]. split; [reflexivity|].
      exists this', e. auto.
    + right. right. split; [exact Hk|]. split; [reflexivity|].
      exists this', v. auto.
  - left. destruct raw; [|discriminate]. split; [reflexivity|].
    destruct st. eexists. split; reflexivity.
Qed.

Lemma entriesOf_snoc st this calls e :
  entriesOf (Running (mkOutput this calls (writerCalls st ++ [WriterWrite e])))
    = entriesOf (Running st) ++ [e].
Proof. unfold entriesOf. simpl. rewrite flat_map_app. reflexivity. Qed.

(** What the inner loop has done when it is still running. *)
Lemma onRaw_running clock raws st0 st :
  fold_left (onRaw clock) raws (Running st0) = Running st ->
  map JsonLogFormatter.message (entriesOf (Running st)) =
    map JsonLogFormatter.message (entriesOf (Running st0))
      ++ filter kept (map JS.trim raws)
  /\ formatCalls st = formatCalls st0 + List.length (filter JS.nonEmpty raws)
  /\ (reachable (formatter st0) -> reachable (formatter st))
  /\ (~ In WriterEnd (writerCalls st0) -> ~ In WriterEnd (writerCalls st)).
Proof.
  revert st0. induction raws as [|raw raws IH]; intros st0 H; cbn [fold_left] in H.
  - injection H as <-. simpl. rewrite app_nil_r. auto.
  - destruct (onRaw_cases clock st0 raw)
      as [[Hk (calls & Ho & Hc)]|[[Hk (Hne & this' & e & Hf & He & Ho)]
                                 |[Hk (Hne & this' & v & Ho & _)]]];
      rewrite Ho in H.
    + destruct (IH _ H) as (Hm & Hn & Hr & Hw). cbn [formatter formatCalls writerCalls] in *.
      simpl. rewrite Hk. split; [exact Hm|]. split; [|auto].
      rewrite Hn, Hc. destruct (JS.nonEmpty raw); simpl; lia.
    + destruct (IH _ H) as (Hm & Hn & Hr & Hw). cbn [formatter formatCalls writerCalls] in *.
      simpl. rewrite Hk, Hne. split; [|split; [simpl; lia|split]].
      * rewrite Hm, entriesOf_snoc, map_app, <- app_assoc. simpl. rewrite He.
        reflexivity.
      * intros Hr0. apply Hr. eapply reachable_format; eassumption.
      * intros Hw0. apply Hw. intros Hin. apply in_app_or in Hin.
        destruct Hin as [Hin|[Hin|[]]]; [auto|discriminate].
    + rewrite onRaw_rejected in H. discriminate.
Qed.

Lemma onRaw_stops clock raws st0 st :
  fold_left (onRaw clock) raws (Running st0) = Rejected st ->
  ~ In WriterEnd (writerCalls st0) ->
  ~ In WriterEnd (writerCalls st)
  /\ exists v, battleTimestamp (formatter st) = Some v
               /\ JS.dateOfNumber (JS.mul v (JS.ofZ 1000)) = None.
Proof.
  revert st0. induction raws as [|raw raws IH]; intros st0 H Hw; cbn [fold_left] in H;
    [discriminate|].
  destruct (onRaw_cases clock st0 raw)
    as [[Hk (calls & Ho & Hc)]|[[Hk (Hne & this' & e & Hf & He & Ho)]
                               |[Hk (Hne & this' & v & Ho & Hv & Hd)]]];
    rewrite Ho in H.
  - apply (IH _ H). exact Hw.
  - apply (IH _ H). cbn [writerCalls]. intros Hin. apply in_app_or in Hin.
    destruct Hin as [Hin|[Hin|[]]]; [auto|discriminate].
  - rewrite onRaw_rejected in H. injection H as <-. cbn [writerCalls formatter].
    split; [exact Hw|]. exists v. auto.
Qed.

Lemma pipeJsonOutput_segments clock chunks :
  pipeJsonOutput clock chunks =
    writerEnd (fold_left (onRaw clock) (segments chunks) startOutput).
Proof. unfold pipeJsonOutput, segments. rewrite fold_left_flat_map. reflexivity. Qed.

Lemma entriesOf_writerEnd flow : entriesOf (writerEnd flow) = entriesOf flow.
Proof.
  destruct flow as [st|st]; [|reflexivity].
  unfold entriesOf. cbn [writerEnd writerCalls]. rewrite flat_map_app. simpl.
  apply app_nil_r.
Qed.

Lemma onRaw_adds_at_most_one clock flow raw :
  List.length (entriesOf (onRaw clock flow raw)) <= S (List.length (entriesOf flow)).
Proof.
  destruct flow as [st|st]; [|simpl; lia].
  destruct (onRaw_cases clock st raw)
    as [[Hk (calls & Ho & Hc)]|[[Hk (Hne & this' & e & Hf & He & Ho)]
                               |[Hk (Hne & this' & v & Ho & _)]]];
    rewrite Ho.
  - unfold entriesOf. cbn [writerCalls]. lia.
  - rewrite entriesOf_snoc, length_app. simpl. lia.
  - unfold entriesOf. cbn [writerCalls]. lia.
Qed.

(** C7 (amended). The read side keeps no tail: every chunk is split at its
    line feeds on its own, and the run formats, in order, the non-empty
    pieces of every chunk.  So a line that arrives whole in one chunk is
    formatted once and gives at most one record; a line cut in two by a
    chunk boundary is formatted as two lines, fragment by fragment, and
    gives at most two records.  In a run that completes, the records of the
    cut line are those of the fragments that are kept (not empty after
    trimming and not the single [|]), each with its own trimmed fragment as
    message, where the whole line gives the one record of the trimmed
    line, if that is kept. *)
Theorem C7_chunks_split_separately (clock : nat -> Z) :
  (forall chunks,
     pipeJsonOutput clock chunks =
       writerEnd (fold_left (onRaw clock)
                            (flat_map (fun chunk => JS.split chunk JS.LF) chunks)
                            startOutput))
  /\ (forall a b,
        JS.indexOf a JS.LF = None -> JS.indexOf b JS.LF = None ->
        pipeJsonOutput clock [a; (b ++ JS.str JS.LF)%string] =
          writerEnd (onRaw clock (onRaw clock startOutput a) b)
        /\ pipeJsonOutput clock [(a ++ b ++ JS.str JS.LF)%string] =
             writerEnd (onRaw clock startOutput (a ++ b)%string)
        /\ (forall st,
              pipeJsonOutput clock [a; (b ++ JS.str JS.LF)%string] = Running st ->
              map JsonLogFormatter.message (entriesOf (Running st))
                = filter kept [JS.trim a; JS.trim b])
        /\ (forall st,
              pipeJsonOutput clock [(a ++ b ++ JS.str JS.LF)%string] = Running st ->
              map JsonLogFormatter.message (entriesOf (Running st))
                = filter kept [JS.trim (a ++ b)])
        /\ List.length
             (entriesOf (pipeJsonOutput clock [a; (b ++ JS.str JS.LF)%string])) <= 2
        /\ List.length
             (entriesOf (pipeJsonOutput clock [(a ++ b ++ JS.str JS.LF)%string])) <= 1).
Proof.
  split.
  - intros chunks. unfold pipeJsonOutput. rewrite fold_left_flat_map. reflexivity.
  - intros a b Ha Hb.
    assert (pipeJsonOutput clock [a; (b ++ JS.str JS.LF)%string] =
              writerEnd (onRaw clock (onRaw clock startOutput a) b)) as Hcut.
    { unfold pipeJsonOutput. cbn [fold_left]. unfold onOutputChunk.
      rewrite (split_no_separator a _ Ha), (split_terminated b _ Hb).
      cbn [fold_left]. rewrite !onRaw_empty. reflexivity. }
    assert (pipeJsonOutput clock [(a ++ b ++ JS.str JS.LF)%string] =
              writerEnd (onRaw clock startOutput (a ++ b)%string)) as Hwhole.
    { unfold pipeJsonOutput. cbn [fold_left]. unfold onOutputChunk.
      rewrite <- append_assoc,
        (split_terminated _ _ (indexOf_app_none _ _ _ Ha Hb)).
      cbn [fold_left]. rewrite !onRaw_empty. reflexivity. }
    split; [exact Hcut|]. split; [exact Hwhole|]. split; [|split; [|split]].
    + intros st H. rewrite Hcut in H.
      destruct (onRaw clock (onRaw clock startOutput a) b) as [st'|st'] eqn:E;
        [|discriminate].
      change (entriesOf (Running st)) with (entriesOf (Running st)).
      rewrite <- H, entriesOf_writerEnd.
      exact (proj1 (onRaw_running clock [a; b] _ st' E)).
    + intros st H. rewrite Hwhole in H.
      destruct (onRaw clock startOutput (a ++ b)%string) as [st'|st'] eqn:E;
        [|discriminate].
      rewrite <- H, entriesOf_writerEnd.
      exact (proj1 (onRaw_running clock [(a ++ b)%string] _ st' E)).
    + rewrite Hcut, entriesOf_writerEnd.
      pose proof (onRaw_adds_at_most_one clock (onRaw clock startOutput a) b).
      pose proof (onRaw_adds_at_most_one clock startOutput a).
      change (List.length (entriesOf startOutput)) with 0 in *. lia.
    + rewrite Hwhole, entriesOf_writerEnd.
      pose proof (onRaw_adds_at_most_one clock startOutput (a ++ b)%string).
      change (List.length (entriesOf startOutput)) with 0 in *. lia.
Qed.

Lemma C7_chunks_split_separately_witness :
  map JsonLogFormatter.message
      (entriesOf (pipeJsonOutput (fun _ => 0%Z)
                    ["|turn"; ("|5" ++ JS.str JS.LF)%string]))
    = ["|turn"; "|5"]%string
  /\ map JsonLogFormatter.message
         (entriesOf (pipeJsonOutput (fun _ => 0%Z)
                       [("|turn" ++ "|5" ++ JS.str JS.LF)%string]))
       = ["|turn|5"]%string
  /\ map JsonLogFormatter.message
         (entriesOf (pipeJsonOutput (fun _ => 0%Z)
                       ["|"; ("turn|5" ++ JS.str JS.LF)%string]))
       = ["turn|5"]%string.
Proof.
  destruct (proj2 (C7_chunks_split_separately (fun _ => 0%Z)) "|turn" "|5"
              eq_refl eq_refl) as (_ & _ & Hcut & Hwhole & _).
  destruct (proj2 (C7_chunks_split_separately (fun _ => 0%Z)) "|" "turn|5"
              eq_refl eq_refl) as (_ & _ & Hbar & _).
  split; [|split].
  - destruct (pipeJsonOutput (fun _ => 0%Z) ["|turn"; ("|5" ++ JS.str JS.LF)%string])
      as [st|st] eqn:E; [|vm_compute in E; discriminate E].
    exact (Hcut st eq_refl).
  - destruct (pipeJsonOutput (fun _ => 0%Z) [("|turn" ++ "|5" ++ JS.str JS.LF)%string])
      as [st|st] eqn:E; [|vm_compute in E; discriminate E].
    exact (Hwhole st eq_refl).
  - destruct (pipeJsonOutput (fun _ => 0%Z) ["|"; ("turn|5" ++ JS.str JS.LF)%string])
      as [st|st] eqn:E; [|vm_compute in E; discriminate E].
    exact (Hbar st eq_refl).
Defined.

(** X9. The records of a run that completes: one per segment that is kept
    (non-empty after trimming and not [|]), in the order of the segments,
    each with the trimmed segment as its message; [format] was called once
    per non-empty segment; and the writer is ended once, after the last
    record. *)
Theorem X9_records_of_a_complete_run (clock : nat -> Z) (chunks : list string)
    (st : OutputState) :
  pipeJsonOutput clock chunks = Running st ->
  map JsonLogFormatter.message (entriesOf (Running st))
    = filter kept (map JS.trim (segments chunks))
  /\ formatCalls st = List.length (filter JS.nonEmpty (segments chunks))
  /\ exists before, writerCalls st = before ++ [WriterEnd] /\ ~ In WriterEnd before.
Proof.
  rewrite pipeJsonOutput_segments. intros H.
  destruct (fold_left (onRaw clock) (segments chunks) startOutput) as [st'|st'] eqn:E;
    [|discriminate].
  simpl in H. injection H as <-.
  destruct (onRaw_running clock _ _ _ E) as (Hm & Hn & _ & Hw).
  split; [|split].
  - unfold entriesOf in *. cbn [writerCalls] in *. rewrite flat_map_app. simpl.
    rewrite app_nil_r. exact Hm.
  - exact Hn.
  - exists (writerCalls st'). split; [reflexivity|]. apply Hw. intros [].
Qed.

Lemma X9_records_of_a_complete_run_witness :
  let chunks := [("|start" ++ JS.str JS.LF ++ "|" ++ JS.str JS.LF ++ "  |tu")%string;
                 ("rn|1" ++ JS.str JS.LF)%string] in
  exists st, pipeJsonOutput (fun _ => 0%Z) chunks = Running st
             /\ map JsonLogFormatter.message (entriesOf (Running st))
                = ["|start"; "|tu"; "rn|1"]%string
             /\ formatCalls st = 4.
Proof.
  intros chunks. eexists. split; [vm_compute; reflexivity|].
  match goal with |- context [Running ?s] =>
    destruct (X9_records_of_a_complete_run (fun _ => 0%Z) chunks s eq_refl)
      as (Hm & Hn & _) end.
  split; [rewrite Hm; reflexivity | rewrite Hn; reflexivity].
Defined.

(** X10. A run that stops: when the pieces before have been handled with
    the run still going (the stream and the writer not failing) and the
    call of [format] on the next piece throws, the promise of
    [pipeJsonOutput] is rejected at that piece.  The pieces before it have
    been handled as in a run that completes (one record for each that is
    kept, [format] called once for each that is not empty), no later piece
    is formatted, the writer holds the records made before and nothing
    else, and it is never ended.  [format] throws on a line that is kept,
    and then the time stamp stored after that line, times 1000, is no valid
    date (so that [toISOString] throws). *)
Theorem X10_rejected_run (clock : nat -> Z) (chunks done : list string)
    (raw : string) (rest : list string) (st : OutputState) (this' : State) :
  segments chunks = done ++ raw :: rest ->
  fold_left (onRaw clock) done startOutput = Running st ->
  format (clock (formatCalls st)) (formatter st) raw = (this', RangeError) ->
  pipeJsonOutput clock chunks
    = Rejected (mkOutput this' (S (formatCalls st)) (writerCalls st))
  /\ ~ In WriterEnd (writerCalls st)
  /\ map JsonLogFormatter.message (entriesOf (pipeJsonOutput clock chunks))
       = filter kept (map JS.trim done)
  /\ formatCalls st = List.length (filter JS.nonEmpty done)
  /\ kept (JS.trim raw) = true
  /\ exists v, battleTimestamp this' = Some v
               /\ JS.dateOfNumber (JS.mul v (JS.ofZ 1000)) = None.
Proof.
  intros Hseg Hdone Hf.
  assert (JS.nonEmpty raw = true) as Hne.
  { destruct raw; [|reflexivity]. cbn in Hf. discriminate Hf. }
  assert (pipeJsonOutput clock chunks
            = Rejected (mkOutput this' (S (formatCalls st)) (writerCalls st))) as Hrun.
  { rewrite pipeJsonOutput_segments, Hseg, fold_left_app, Hdone.
    cbn [fold_left]. unfold onRaw at 2. rewrite Hne, Hf. cbn [negb].
    rewrite onRaw_rejected. reflexivity. }
  destruct (onRaw_running clock _ _ _ Hdone) as (Hm & Hn & _ & Hw).
  split; [exact Hrun|]. split; [apply Hw; intros []|].
  split; [rewrite Hrun; exact Hm|]. split; [exact Hn|].
  destruct (format_cases (clock (formatCalls st)) (formatter st) raw)
    as [[Hk Hx]|[[Hk (this'' & e & Hx & He)]|[Hk (this'' & v & Hx & Hv & Hd)]]];
    rewrite Hx in Hf; try discriminate Hf.
  injection Hf as <-. split; [exact Hk|]. exists v. auto.
Qed.

Lemma X10_rejected_run_witness :
  let chunks := [("|t:|1" ++ JS.str JS.LF ++ "|t:|1e300" ++ JS.str JS.LF
                    ++ "|turn|2" ++ JS.str JS.LF)%string] in
  exists st, pipeJsonOutput (fun _ => 0%Z) chunks = Rejected st
             /\ map JsonLogFormatter.message (entriesOf (Rejected st))
                = ["|t:|1"]%string
             /\ List.length (writerCalls st) = 1
             /\ formatCalls st = 2.
Proof.
  intros chunks.
  edestruct (X10_rejected_run (fun _ => 0%Z) chunks ["|t:|1"%string] "|t:|1e300"
               ["|turn|2"%string; EmptyString]) as (Hrun & _ & Hm & _);
    [vm_compute; reflexivity | vm_compute; reflexivity | vm_compute; reflexivity |].
  eexists. split; [exact Hrun|]. rewrite <- Hrun.
  split; [exact Hm|]. split; reflexivity.
Defined.

(** X11. The formatter is only ever called in a state reached through calls
    that returned: whatever part of the segments has been consumed, if the
    run is still going its formatter state is reachable.  (This is the
    condition under which a malformed time stamp line is a non-update.) *)
Theorem X11_formatter_stays_reachable (clock : nat -> Z) (chunks : list string)
    (done rest : list string) (st : OutputState) :
  segments chunks = done ++ rest ->
  fold_left (onRaw clock) done startOutput = Running st ->
  reachable (formatter st)
  /\ pipeJsonOutput clock chunks =
       writerEnd (fold_left (onRaw clock) rest (Running st)).
Proof.
  intros Hs Hd. split.
  - destruct (onRaw_running clock _ _ _ Hd) as (_ & _ & Hr & _).
    apply Hr. constructor.
  - rewrite pipeJsonOutput_segments, Hs, fold_left_app, Hd. reflexivity.
Qed.

Lemma X11_formatter_stays_reachable_witness :
  reachable (mkState (Some (JS.ofZ 3)) None).
Proof.
  refine (proj1 (X11_formatter_stays_reachable (fun _ => 0%Z)
                   [("|turn|3" ++ JS.str JS.LF ++ "x")%string]
                   ["|turn|3"%string] ["x"%string]
                   (mkOutput (mkState (Some (JS.ofZ 3)) None) 1
                             [WriterWrite (mkEntry "|turn|3" "1970-01-01T00:00:00.000Z"
                                                   (Some (JS.ofZ 3)) None)])
                   eq_refl _)).
  vm_compute. reflexivity.
Defined.

(** *** The turn grammar *)

Lemma split_field f c rest :
  JS.indexOf f c = None ->
  JS.split (f ++ String c rest) c = f :: JS.split rest c.
Proof.
  induction f as [|a f IH]; simpl.
  - rewrite Ascii.eqb_refl. reflexivity.
  - destruct (Ascii.eqb a c); [discriminate|].
    destruct (JS.indexOf f c); [discriminate|].
    intros _. rewrite IH; reflexivity.
Qed.

Lemma split_two s c p q r :
  JS.split s c = p :: q :: r -> exists z, s = (p ++ String c z)%string.
Proof.
  revert p. induction s as [|a s IH]; intros p H; simpl in H; [discriminate|].
  destruct (Ascii.eqb a c) eqn:Ea.
  - apply Ascii.eqb_eq in Ea. subst a. injection H as <- _. exists s. reflexivity.
  - destruct (JS.split s c) as [|p' rest'] eqn:Es; [discriminate|].
    injection H as <- ->. destruct (IH p' eq_refl) as [z ->].
    exists z. reflexivity.
Qed.

Lemma split_nonempty s c : JS.split s c <> [].
Proof.
  destruct s as [|a s]; simpl; [discriminate|].
  destruct (Ascii.eqb a c); [discriminate|].
  destruct (JS.split s c); discriminate.
Qed.

(** X12. The turn grammar: a line sets the turn exactly when it begins with
    [|turn|] and the field that follows, up to the next [|] or the end of the
    line, is turned into a finite number by [Number]; anything behind that
    field is ignored.  An empty field counts as the number 0, so the bare
    line [|turn|] sets the turn to 0. *)
Theorem X12_turn_grammar :
  (forall field,
     JS.indexOf field "|" = None ->
     extractTurn ("|turn|" ++ field)
       = (if JS.isFinite (JS.Number field) then Some (JS.Number field) else None)
     /\ forall rest,
          extractTurn ("|turn|" ++ field ++ "|" ++ rest)
            = (if JS.isFinite (JS.Number field) then Some (JS.Number field) else None))
  /\ (forall message, extractTurn message <> None ->
                      JS.startsWith message "|turn|" = true)
  /\ extractTurn "|turn|" = Some (S754_zero false).
Proof.
  assert (forall x, JS.split ("|turn|" ++ x) "|" = ""%string :: "turn"%string :: JS.split x "|")
    as Hsplit.
  { intros x. change ("|turn|" ++ x)%string with (String "|" ("turn" ++ String "|" x)).
    cbn [JS.split]. change (Ascii.eqb "|" "|") with true. cbn iota.
    rewrite (split_field "turn" "|" x eq_refl). reflexivity. }
  split; [|split; [|reflexivity]].
  - intros field Hf. split; [|intros rest].
    + unfold extractTurn. rewrite Hsplit, (split_no_separator _ _ Hf). reflexivity.
    + unfold extractTurn. rewrite Hsplit.
      change (field ++ "|" ++ rest)%string with (field ++ String "|" rest)%string.
      rewrite (split_field _ _ _ Hf).
      destruct (JS.split rest "|") as [|x xs] eqn:E;
        [destruct (split_nonempty _ _ E)|]. reflexivity.
  - intros message H. unfold extractTurn in H.
    destruct (JS.startsWith message "|") eqn:Hs; [|contradiction H; reflexivity].
    cbn [negb] in H. apply startsWith_app in Hs. destruct Hs as [y ->].
    change ("|" ++ y)%string with (String "|" y) in *.
    cbn [JS.split] in H. change (Ascii.eqb "|" "|") with true in H. cbn iota in H.
    destruct (JS.split y "|") as [|p [|q r]] eqn:Es;
      try (contradiction H; reflexivity).
    cbn [List.length Nat.ltb Nat.leb nth] in H.
    destruct (String.eqb_spec p "turn") as [->|Hne];
      [|contradiction H; reflexivity].
    destruct (split_two _ _ _ _ _ Es) as [z ->].
    apply startsWith_app. exists z. reflexivity.
Qed.

(** X13. No line sets both: a line that sets the stored time stamp (it
    begins with [|t:|]) never sets the turn, and a line that sets the turn
    never sets the time stamp. *)
Theorem X13_turn_or_timestamp (message : string) :
  (extractTimestamp message <> None -> extractTurn message = None)
  /\ (extractTurn message <> None -> extractTimestamp message = None).
Proof.
  assert (extractTimestamp message <> None -> extractTurn message = None) as H.
  { unfold extractTimestamp. intros Ht.
    destruct (JS.startsWith message "|t:|") eqn:Hs; [|contradiction Ht; reflexivity].
    apply (timestamp_line_kept _ Hs). }
  split; [exact H|]. intros Hturn.
  destruct (extractTimestamp message) eqn:E; [|reflexivity].
  contradiction Hturn. apply H. discriminate.
Qed.

Lemma X13_turn_or_timestamp_witness :
  extractTurn "|t:|1700000000" = None /\ extractTimestamp "|turn|7|t:|5" = None.
Proof.
  split.
  - apply (proj1 (X13_turn_or_timestamp "|t:|1700000000")). vm_compute. discriminate.
  - apply (proj2 (X13_turn_or_timestamp "|turn|7|t:|5")). vm_compute. discriminate.
Defined.

Lemma X12_turn_grammar_witness :
  extractTurn "|turn|12|extra" = Some (JS.ofZ 12)
  /\ JS.startsWith "|turn|4" "|turn|" = true.
Proof.
  destruct X12_turn_grammar as (Hfield & Hconv & _). split.
  - exact (proj2 (Hfield "12"%string eq_refl) "extra"%string).
  - apply Hconv. vm_compute. discriminate.
Defined.

(** X18. Once a time stamp is stored the wall clock no longer matters: with
    a stored time stamp, or on a line that sets one, [format] gives the same
    state and the same outcome for every clock reading; and the stored time
    stamp and turn never depend on the clock at all. *)
Theorem X18_clock_only_before_first_timestamp (now1 now2 : Z) (this : State)
    (message : string) :
  fst (format now1 this message) = fst (format now2 this message)
  /\ (battleTimestamp this <> None \/ extractTimestamp (JS.trim message) <> None ->
      format now1 this message = format now2 this message).
Proof.
  destruct (negb (JS.nonEmpty (JS.trim message)) || String.eqb (JS.trim message) "|")
    eqn:Hd.
  - rewrite !(format_discarded _ _ _ Hd). auto.
  - rewrite !(format_kept _ this message Hd). cbv zeta. split; [reflexivity|].
    intros H. cbn [battleTimestamp].
    destruct (extractTimestamp (JS.trim message)) as [v|]; [reflexivity|].
    destruct (battleTimestamp this) as [v|]; [reflexivity|].
    destruct H as [H|H]; contradiction H; reflexivity.
Qed.

Lemma X18_clock_only_before_first_timestamp_witness :
  format 5 (mkState None (Some (JS.ofZ 1000))) "|move|p1a: Eevee|Tackle"
  = format 99000 (mkState None (Some (JS.ofZ 1000))) "|move|p1a: Eevee|Tackle".
Proof.
  apply (proj2 (X18_clock_only_before_first_timestamp 5 99000
                  (mkState None (Some (JS.ofZ 1000))) "|move|p1a: Eevee|Tackle")).
  left. discriminate.
Defined.

(** ** More on start-up *)

Section StartupMore.

Context {PRNGSeed PokemonSet : Type}.
Variable PRNG_new : string -> PRNGSeed + string.
Variable PRNG_generateSeed : PRNGSeed.
Variable readFileSync : string -> string + string.
Variable Teams_import : string -> option (list PokemonSet).
Variable Teams_pack : list PokemonSet -> string.

Local Abbreviation Eff := (@Effect PRNGSeed).
Local Abbreviation P := (@Proc PRNGSeed).

Lemma bind_some {A B} (m : P A) (k : A -> P B) log b :
  bind m k = (log, Some b) ->
  exists l1 a l2, m = (l1, Some a) /\ k a = (l2, Some b) /\ log = l1 ++ l2.
Proof.
  destruct m as [l1 [a|]]; simpl; [|discriminate].
  destruct (k a) as [l2 r] eqn:E. intros H. injection H as <- ->.
  exists l1, a, l2. auto.
Qed.

Lemma stage_some {A} (m : P A) l a :
  stageOk m -> m = (l, Some a) -> forallb beforeEngine l = true.
Proof. intros H ->. exact H. Qed.

Lemma dropEmpty_some path : dropEmpty path <> None <->
  exists p, path = jsString p /\ JS.nonEmpty p = true.
Proof.
  unfold dropEmpty. destruct path as [|p|b].
  - split; [intros H; contradiction H; reflexivity|]. intros (q & Hq & _). discriminate.
  - destruct (JS.nonEmpty p) eqn:E; split.
    + intros _. exists p. auto.
    + discriminate.
    + intros H. contradiction H. reflexivity.
    + intros (q & Hq & Hn). injection Hq as <-. congruence.
  - split; [intros H; contradiction H; reflexivity|]. intros (q & Hq & _). discriminate.
Qed.

(** X14. Loading a team file: the path is used trimmed (so the call on a
    path and on the trimmed path are the same); a path that is blank after
    trimming ends the process before any file is read; when the call comes
    back, exactly one file was read, the import gave at least one set and
    the result is its non-empty packed form; every other way ends the
    process with a diagnostic and exit status 1, after at most that one
    read. *)
Theorem X14_loadTeamFromFile_outcome (path : string) (slot : PlayerSlot) :
  let run := (loadTeamFromFile readFileSync Teams_import Teams_pack path slot : P string) in
  (JS.trim path = EmptyString ->
   run = ([ConsoleError ("Team file path for " ++ upperSlot slot ++ " cannot be empty.");
           ProcessExit 1], None))
  /\ (forall log packed,
        run = (log, Some packed) ->
        log = [ReadFile (JS.trim path)]
        /\ JS.nonEmpty packed = true
        /\ exists contents set sets,
             readFileSync (JS.trim path) = inl contents
             /\ Teams_import contents = Some (set :: sets)
             /\ packed = Teams_pack (set :: sets))
  /\ (forall log, run = (log, None) ->
        exists pre text, log = pre ++ [ConsoleError text; ProcessExit 1]
                         /\ (pre = [] \/ pre = [ReadFile (JS.trim path)]
                             \/ exists text', pre = [ReadFile (JS.trim path);
                                                     ConsoleError text']))
  /\ run = loadTeamFromFile readFileSync Teams_import Teams_pack (JS.trim path) slot.
Proof.
  intros run. subst run. unfold loadTeamFromFile. rewrite trim_idempotent.
  split; [intros ->; reflexivity|].
  split; [|split; [|reflexivity]].
  - intros log packed.
    destruct (negb (JS.nonEmpty (JS.trim path))); [discriminate|].
    destruct (readFileSync (JS.trim path)) as [contents|err]; [|discriminate].
    destruct (Teams_import contents) as [[|set sets]|] eqn:Ei; try discriminate.
    destruct (JS.nonEmpty (Teams_pack (set :: sets))) eqn:E; [|discriminate].
    cbn. intros H. injection H as <- <-.
    split; [reflexivity|]. split; [exact E|]. exists contents, set, sets. auto.
  - intros log.
    destruct (negb (JS.nonEmpty (JS.trim path))).
    { cbn. intros H. injection H as <-. exists []. eexists. split; [reflexivity|auto]. }
    destruct (readFileSync (JS.trim path)) as [contents|err].
    + destruct (Teams_import contents) as [[|set sets]|];
        try (cbn; intros H; injection H as <-;
             exists [ReadFile (JS.trim path)]; eexists; split; [reflexivity|auto]).
      destruct (JS.nonEmpty (Teams_pack (set :: sets))); [discriminate|].
      cbn. intros H. injection H as <-.
      exists [ReadFile (JS.trim path)]. eexists. split; [reflexivity|auto].
    + cbn. intros H. injection H as <-.
      eexists [ReadFile (JS.trim path); ConsoleError _], err.
      split; [reflexivity|]. right. right. eexists. reflexivity.
Qed.

Lemma loadSlot_result values slot log loaded :
  (loadSlot readFileSync Teams_import Teams_pack values slot : P (option string))
    = (log, Some loaded) ->
  match loaded with
  | Some packed =>
      JS.nonEmpty packed = true /\ dropEmpty (teamFileOption values slot) <> None
  | None => dropEmpty (teamFileOption values slot) = None
  end.
Proof.
  intros H. destruct (teamFileOption values slot) as [|path|[|]] eqn:Hopt.
  - unfold loadSlot in H. rewrite Hopt in H. injection H as _ <-. reflexivity.
  - destruct (JS.nonEmpty path) eqn:Hne.
    + assert (truthy (teamFileOption values slot) = true) as Ht
          by (rewrite Hopt; exact Hne).
      pose proof (loadSlot_supplied (PRNGSeed := PRNGSeed) readFileSync Teams_import
                    Teams_pack values slot Ht) as Hs.
      rewrite H in Hs. cbn [snd] in Hs. destruct Hs as (packed & -> & Hp).
      split; [exact Hp|]. unfold dropEmpty. rewrite Hne. discriminate.
    + unfold loadSlot in H. rewrite Hopt, Hne in H. injection H as _ <-.
      unfold dropEmpty. rewrite Hne. reflexivity.
  - unfold loadSlot in H. rewrite Hopt in H. discriminate H.
  - unfold loadSlot in H. rewrite Hopt in H. injection H as _ <-. reflexivity.
Qed.

Lemma hasTeam_loaded loaded1 loaded2 slot :
  hasTeam (mkTeams loaded1 loaded2) slot =
    match (match slot with p1 => loaded1 | p2 => loaded2 end) with
    | Some t => JS.nonEmpty t
    | None => false
    end.
Proof. destruct slot; reflexivity. Qed.

(** X15. The two input modes exclude each other: whenever [main] gets past
    start-up, its log is what came before the engine, then one battle
    stream, one input mode and one output sink.  With [--interactive-stdin]
    the mode is the verbatim pipe and no team file option names a path;
    without it the mode is [pipeInputWithTeams], whose teams are exactly the
    slots whose option names a path, each with a non-empty packed team.  The
    sink is the JSON formatter exactly when the log format is [json]. *)
Theorem X15_modes_exclusive (values : CLIValues) (log : list Eff) :
  main PRNG_new PRNG_generateSeed readFileSync Teams_import Teams_pack values
    = (log, Some tt) ->
  exists pre options mode sink output,
    log = pre ++ [NewBattleStream options; mode; sink]
    /\ forallb beforeEngine pre = true
    /\ (if truthy (opt_interactive_stdin values)
        then mode = StdinPipeTo
             /\ dropEmpty (opt_p1_team_file values) = None
             /\ dropEmpty (opt_p2_team_file values) = None
        else exists teams,
               mode = PipeInputWithTeams teams
               /\ forall slot,
                    (hasTeam teams slot = true
                     <-> dropEmpty (teamFileOption values slot) <> None)
                    /\ (team teams slot = None \/ hasTeam teams slot = true))
    /\ ((sink = PipeJsonOutput output
         /\ snd (parseLogFormat (opt_log_format values) : P LogFormat) = Some json)
        \/ (sink = BattleStreamPipeTo output
            /\ snd (parseLogFormat (opt_log_format values) : P LogFormat) = Some text))
    /\ bs_replay options =
         match parseReplayOption (opt_replay values) with
         | Some r => r
         | None => replayOff
         end.
Proof.
  unfold main. intros H.
  apply bind_some in H. destruct H as (l0 & [] & r0 & H0 & H & ->).
  injection H0 as <-.
  apply bind_some in H. destruct H as (l1 & logFormat & r1 & H1 & H & ->).
  apply bind_some in H. destruct H as (l2 & seed & r2 & H2 & H & ->).
  apply bind_some in H. destruct H as (l3 & output & r3 & H3 & H & ->).
  apply bind_some in H. destruct H as (l4 & team1 & r4 & H4 & H & ->).
  apply bind_some in H. destruct H as (l5 & team2 & r5 & H5 & H & ->).
  apply bind_some in H. destruct H as (l6 & [] & r6 & H6 & H & ->).
  pose proof (stage_some _ _ _ (stageOk_parseLogFormat _) H1) as B1.
  pose proof (stage_some _ _ _ (stageOk_parseSeed _ _ _) H2) as B2.
  pose proof (stage_some _ _ _ (stageOk_openOutput _) H3) as B3.
  pose proof (stage_some _ _ _ (stageOk_loadSlot _ _ _ _ _) H4) as B4.
  pose proof (stage_some _ _ _ (stageOk_loadSlot _ _ _ _ _) H5) as B5.
  pose proof (loadSlot_result _ _ _ _ H4) as R1.
  pose proof (loadSlot_result _ _ _ _ H5) as R2.
  set (teams := mkTeams team1 team2) in *.
  assert (l6 = [] /\ truthy (opt_interactive_stdin values)
                    && (hasTeam teams p1 || hasTeam teams p2) = false) as [-> Hcheck].
  { destruct (truthy (opt_interactive_stdin values)
              && (hasTeam teams p1 || hasTeam teams p2)); [discriminate|].
    injection H6 as <-. auto. }
  assert (forall slot,
            (hasTeam teams slot = true
             <-> dropEmpty (teamFileOption values slot) <> None)
            /\ (team teams slot = None \/ hasTeam teams slot = true)) as Hteams.
  { intros slot. unfold teams. rewrite hasTeam_loaded.
    destruct slot; cbn [team team_p1 team_p2 teamFileOption] in *.
    - destruct team1 as [t|]; [destruct R1 as [-> R1]|rewrite R1].
      + split; [split; auto|auto].
      + split; [split; [discriminate|intros X; contradiction X; reflexivity]|auto].
    - destruct team2 as [t|]; [destruct R2 as [-> R2]|rewrite R2].
      + split; [split; auto|auto].
      + split; [split; [discriminate|intros X; contradiction X; reflexivity]|auto]. }
  exists (DexIncludeFormats :: l1 ++ l2 ++ l3 ++ l4 ++ l5).
  destruct (truthy (opt_interactive_stdin values)) eqn:Hi;
    destruct logFormat; cbn in H; injection H as <-;
    do 3 eexists; exists output;
    (split; [cbn; rewrite <- ?app_assoc; reflexivity|]);
    (split; [cbn; rewrite !forallb_app, B1, B2, B3, B4, B5; reflexivity|]);
    (split; [|split; [rewrite H1; cbn; auto|reflexivity]]).
  1,2: split; [reflexivity|]; cbn [andb] in Hcheck;
       apply orb_false_elim in Hcheck; destruct Hcheck as [C1 C2];
       split; [destruct (dropEmpty (opt_p1_team_file values)) eqn:E; [|reflexivity];
               assert (hasTeam teams p1 = true) by (apply (Hteams p1); cbn; rewrite E; discriminate);
               congruence
              |destruct (dropEmpty (opt_p2_team_file values)) eqn:E; [|reflexivity];
               assert (hasTeam teams p2 = true) by (apply (Hteams p2); cbn; rewrite E; discriminate);
               congruence].
  1,2: exists teams; split; [reflexivity|exact Hteams].
Qed.

Lemma openOutput_withoutEmptyPaths values :
  (openOutput (withoutEmptyPaths values) : P Output) = openOutput values.
Proof.
  unfold openOutput, withoutEmptyPaths, emptyAsAbsent. cbn [opt_log_file].
  destruct (opt_log_file values) as [|path|[|]]; try reflexivity.
  destruct (JS.nonEmpty path) eqn:E; [rewrite E|]; reflexivity.
Qed.

Lemma loadSlot_withoutEmptyPaths values slot :
  (loadSlot readFileSync Teams_import Teams_pack (withoutEmptyPaths values) slot
   : P (option string))
  = loadSlot readFileSync Teams_import Teams_pack values slot.
Proof.
  unfold loadSlot, withoutEmptyPaths, emptyAsAbsent.
  destruct slot; cbn [teamFileOption opt_p1_team_file opt_p2_team_file].
  - destruct (opt_p1_team_file values) as [|path|[|]]; try reflexivity.
    destruct (JS.nonEmpty path) eqn:E; [rewrite E|]; reflexivity.
  - destruct (opt_p2_team_file values) as [|path|[|]]; try reflexivity.
    destruct (JS.nonEmpty path) eqn:E; [rewrite E|]; reflexivity.
Qed.

(** X16. Empty paths count as absent: a log file or team file option given
    as the empty string changes nothing, [main] runs as if the option were
    not there (the output goes to stdout, no team is loaded, no conflict is
    reported).  [main] calls [openLogFile] only for a non-empty string, so
    the empty path diagnostic of [openLogFile] cannot be reached from
    [main]: the stage then creates the write stream for that path and puts
    the error listener on it, in this order, and goes on; for an empty
    string, [false] or no option it does nothing and the sink is stdout;
    for an option given without a value it ends in a [TypeError].  The
    listener, if the stream ever reports an error, writes a diagnostic that
    names the path and the error and ends the process with status 1. *)
Theorem X16_empty_paths_are_absent (values : CLIValues) :
  main PRNG_new PRNG_generateSeed readFileSync Teams_import Teams_pack
       (withoutEmptyPaths values)
  = main PRNG_new PRNG_generateSeed readFileSync Teams_import Teams_pack values
  /\ (openOutput values : P Output) =
       match dropEmpty (opt_log_file values) with
       | Some path =>
           ([CreateWriteStream path; OnStreamError path], Some (LogFile path))
       | None =>
           if valueless (opt_log_file values) then ([UncaughtTypeError], None)
           else ([], Some Stdout)
       end
  /\ (forall path, JS.nonEmpty path = true ->
        (openLogFile path : P Output)
        = ([CreateWriteStream path; OnStreamError path], Some (LogFile path)))
  /\ (openLogFile EmptyString : P Output)
       = ([ConsoleError "Log file path cannot be empty."; ProcessExit 1], None)
  /\ ~ In (ConsoleError "Log file path cannot be empty.")
          (fst (openOutput values : P Output))
  /\ (forall path err,
        (logFileFailed path err : P unit)
        = ([ConsoleError ("Failed to write log output to " ++ path ++ ": " ++ err);
            ProcessExit 1], None)).
Proof.
  assert ((openOutput values : P Output) =
       match dropEmpty (opt_log_file values) with
       | Some path =>
           ([CreateWriteStream path; OnStreamError path], Some (LogFile path))
       | None =>
           if valueless (opt_log_file values) then ([UncaughtTypeError], None)
           else ([], Some Stdout)
       end) as Hopen.
  { unfold openOutput, dropEmpty. destruct (opt_log_file values) as [|path|[|]];
      try reflexivity.
    destruct (JS.nonEmpty path) eqn:E; [|reflexivity].
    unfold openLogFile. rewrite E. reflexivity. }
  split; [|split; [exact Hopen|split; [|split; [reflexivity|split; [|reflexivity]]]]].
  - unfold main. rewrite openOutput_withoutEmptyPaths, !loadSlot_withoutEmptyPaths.
    reflexivity.
  - intros path E. unfold openLogFile. rewrite E. reflexivity.
  - rewrite Hopen. destruct (dropEmpty (opt_log_file values)) as [path|].
    + cbn [fst]. intros [H|[H|[]]]; discriminate H.
    + destruct (valueless (opt_log_file values)); cbn [fst].
      * intros [H|[]]; discriminate H.
      * intros [].
Qed.

End StartupMore.

Lemma X14_loadTeamFromFile_outcome_witness :
  loadTeamFromFile (PRNGSeed := nat) (PokemonSet := unit)
    (fun _ => inl "Pikachu"%string) (fun _ => Some [tt]) (fun _ => "Pikachu|||"%string)
    "   " p2
  = ([ConsoleError "Team file path for P2 cannot be empty."; ProcessExit 1], None).
Proof.
  exact (proj1 (X14_loadTeamFromFile_outcome (PRNGSeed := nat) (PokemonSet := unit)
                  (fun _ => inl "Pikachu"%string) (fun _ => Some [tt])
                  (fun _ => "Pikachu|||"%string) "   " p2) eq_refl).
Defined.

Lemma X15_modes_exclusive_witness :
  let values :=
    mkValues undefined undefined undefined (jsString "spectator") (jsString "JSON")
             (jsString " Random ") (jsString "out.log") (jsString " team.txt")
             (jsString EmptyString) undefined in
  let run :=
    main (PRNGSeed := nat) (PokemonSet := unit)
         (fun _ => inl 7) 9 (fun _ => inl "Pikachu"%string)
         (fun _ => Some [tt]) (fun _ => "Pikachu|||"%string) values in
  snd run = Some tt
  /\ exists pre options mode sink,
       fst run = pre ++ [NewBattleStream options; mode; sink]
       /\ forallb beforeEngine pre = true.
Proof.
  intros values run. split; [reflexivity|].
  destruct (X15_modes_exclusive (PRNGSeed := nat) (PokemonSet := unit)
              (fun _ => inl 7) 9 (fun _ => inl "Pikachu"%string)
              (fun _ => Some [tt]) (fun _ => "Pikachu|||"%string) values (fst run)
              eq_refl)
    as (pre & options & mode & sink & output & Hlog & Hpre & _).
  exists pre, options, mode, sink. split; assumption.
Defined.

Lemma X16_empty_paths_are_absent_witness :
  let values :=
    mkValues undefined undefined undefined undefined undefined undefined
             (jsString EmptyString) (jsString EmptyString) undefined
             (jsBoolean true) in
  main (PRNGSeed := nat) (PokemonSet := unit)
       (fun _ => inl 7) 9 (fun _ => inl "Pikachu"%string)
       (fun _ => Some [tt]) (fun _ => "Pikachu|||"%string) values
  = main (PRNGSeed := nat) (PokemonSet := unit)
         (fun _ => inl 7) 9 (fun _ => inl "Pikachu"%string)
         (fun _ => Some [tt]) (fun _ => "Pikachu|||"%string)
         (mkValues undefined undefined undefined undefined undefined undefined
                   undefined undefined undefined (jsBoolean true))
  /\ (openLogFile "out.log" : @Proc nat Output)
     = ([CreateWriteStream "out.log"; OnStreamError "out.log"],
        Some (LogFile "out.log")).
Proof.
  intros values.
  destruct (X16_empty_paths_are_absent (PRNGSeed := nat) (PokemonSet := unit)
              (fun _ => inl 7) 9 (fun _ => inl "Pikachu"%string)
              (fun _ => Some [tt]) (fun _ => "Pikachu|||"%string) values)
    as (Hmain & _ & Hopen & _).
  split; [symmetry; exact Hmain | exact (Hopen "out.log"%string eq_refl)].
Defined.
